(** * oak-client: the middleware pipeline of [client.ts] and [middleware.ts]

    A shallow embedding of the HTTP client and of its middleware: the
    composer [compose], the handlers [urlPrefix], [defaultHeaders],
    [timeout], [retry] and [throwErrors], and the client's [fetch] with its
    request shorthands.

    An [async] function is a computation over the state of the running
    program that settles by fulfilling or by rejecting; [await] runs the
    awaited computation to its settlement.  A loop that the source does not
    bound takes a fuel, and a computation that runs out of it never
    settles. *)

From stdpp Require Import gmap strings list pretty.
From Equations Require Import Equations.
From Equations.Prop Require Import Logic.
From Stdlib Require Import ZArith Lia.

Set Warnings "-register-all".

Local Open Scope Z_scope.
Local Open Scope string_scope.
Local Open Scope list_scope.

(** ** Values of the program *)

(** JSON documents: what [response.json()] yields and [JSON.stringify]
    takes. *)
Inductive Json : Type :=
| JNull
| JBool (b : bool)
| JNumber (n : Z)
| JString (s : string)
| JArray (items : list Json)
| JObject (fields : list (string * Json)).

(** Error objects that travel through the chain.  The classes the sources
    name are constructors of their own; [ErrorObject] is an error of any
    other class, with the name of its constructor. *)
Inductive Error : Type :=
| TimeoutError
| Boom (statusCode : Z)
| TypeError (message : string)
| SyntaxError (message : string)
| ErrorObject (className message : string).

(** [e.constructor.name].

    Modelled from the spec: the class [TimeoutError] is declared in
    [./errors], which is not among the sources; it is taken to be a class
    of that name, a kind of its own next to the transport's abort. *)
Definition constructor_name (e : Error) : string :=
  match e with
  | TimeoutError => "TimeoutError"
  | Boom _ => "Boom"
  | TypeError _ => "TypeError"
  | SyntaxError _ => "SyntaxError"
  | ErrorObject c _ => c
  end.

(** [Headers]: the entries of an instance of the class, a map from
    lower-cased names to values. *)
Abbreviation Headers := (gmap string string).

(** [HeadersInit]: an instance of [Headers], a plain object from names to
    values, or an array of pairs of a name and a value. *)
Inductive HeadersInit : Type :=
| HeadersObject (entries : Headers)
| HeadersRecord (fields : gmap string string)
| HeadersPairs (pairs : list (string * string)).

(** An [AbortSignal] is known by the controller that owns it. *)
Record AbortSignal : Type := { controller : nat }.

(** [RequestInit], with the fields the program reads or writes.  A
    request without [headers] has the empty object for them: the program
    reads the field through [new Headers(...)] and [... || {}] only, which
    do not tell the two apart. *)
Record RequestInit : Type := {
  method : option string;
  headers : HeadersInit;
  body : option string;
  signal : option AbortSignal;
}.

Abbreviation RequestInfo := string (only parsing).

(** [interface OakResponse] *)
Record OakResponse : Type := {
  status : Z;
  res_headers : Headers;
  data : Json;
  raw : option string;
}.

Record OakRequest : Type := {
  input : RequestInfo;
  init : RequestInit;
}.

(** [interface OakContext] *)
Record OakContext : Type := {
  req : OakRequest;
  res : option OakResponse;
  error : option Error;
}.

(** The transport's reply: status, headers and the body that [json()] and
    [text()] read.  The reply is an object of the transport, and so is its
    [json()]: the error that rejects with for a body that is no JSON
    document is the transport's own, and the reply carries it. *)
Record Response : Type := {
  resp_status : Z;
  resp_headers : Headers;
  resp_body : string;
  resp_json_error : Error;
}.

(** ** The state of the running program *)

(** A pending [setTimeout]: when it is due and the controller its callback
    [() => controller.abort()] aborts. *)
Record Timer : Type := {
  due : Z;
  aborts : nat;
}.

(** What the probes of a test record ([jest.fn()] spies, marker strings). *)
Inductive Event : Type :=
| Mark (label : string)
| NextCalled
| NextRejected (e : Error)
| Decide (attempt : nat) (e : Error).

Record World : Type := {
  ctx : OakContext;              (* the context of the call in flight *)
  now : Z;                       (* the clock, in ms *)
  timers : gmap nat Timer;       (* armed timers, by id *)
  timer_seq : nat;               (* next timer id *)
  controllers : gmap nat bool;   (* AbortControllers: has abort() run? *)
  vars : gmap string Z;          (* variables captured by handler closures *)
  trace : list Event;            (* what the probes saw, oldest first *)
}.

Definition with_ctx (c : OakContext) (w : World) : World :=
  {| ctx := c; now := now w; timers := timers w; timer_seq := timer_seq w;
     controllers := controllers w; vars := vars w; trace := trace w |}.

Definition with_now (t : Z) (w : World) : World :=
  {| ctx := ctx w; now := t; timers := timers w; timer_seq := timer_seq w;
     controllers := controllers w; vars := vars w; trace := trace w |}.

Definition with_timers (ts : gmap nat Timer) (w : World) : World :=
  {| ctx := ctx w; now := now w; timers := ts; timer_seq := timer_seq w;
     controllers := controllers w; vars := vars w; trace := trace w |}.

Definition with_timer_seq (n : nat) (w : World) : World :=
  {| ctx := ctx w; now := now w; timers := timers w; timer_seq := n;
     controllers := controllers w; vars := vars w; trace := trace w |}.

Definition with_controllers (cs : gmap nat bool) (w : World) : World :=
  {| ctx := ctx w; now := now w; timers := timers w; timer_seq := timer_seq w;
     controllers := cs; vars := vars w; trace := trace w |}.

Definition with_vars (vs : gmap string Z) (w : World) : World :=
  {| ctx := ctx w; now := now w; timers := timers w; timer_seq := timer_seq w;
     controllers := controllers w; vars := vs; trace := trace w |}.

Definition with_trace (tr : list Event) (w : World) : World :=
  {| ctx := ctx w; now := now w; timers := timers w; timer_seq := timer_seq w;
     controllers := controllers w; vars := vars w; trace := tr |}.

(** Field updates of the context, as the handlers write them. *)
Definition set_res (r : option OakResponse) (c : OakContext) : OakContext :=
  {| req := req c; res := r; error := error c |}.

Definition set_error (e : option Error) (c : OakContext) : OakContext :=
  {| req := req c; res := res c; error := e |}.

Definition set_input (i : RequestInfo) (c : OakContext) : OakContext :=
  {| req := {| input := i; init := init (req c) |};
     res := res c; error := error c |}.

Definition set_init (ri : RequestInit) (c : OakContext) : OakContext :=
  {| req := {| input := input (req c); init := ri |};
     res := res c; error := error c |}.

Definition init_with_signal (s : option AbortSignal) (ri : RequestInit)
  : RequestInit :=
  {| method := method ri; headers := headers ri; body := body ri;
     signal := s |}.

Definition init_with_headers (h : HeadersInit) (ri : RequestInit) : RequestInit :=
  {| method := method ri; headers := h; body := body ri;
     signal := signal ri |}.

Definition init_with_method (m : string) (ri : RequestInit) : RequestInit :=
  {| method := Some m; headers := headers ri; body := body ri;
     signal := signal ri |}.

(** ** Promises *)

(** How an awaited computation ends. *)
Inductive Outcome (A : Type) : Type :=
| Resolved (a : A) (w : World)
| Rejected (e : Error) (w : World)
| Pending.
Arguments Resolved {A} a w.
Arguments Rejected {A} e w.
Arguments Pending {A}.

Definition Promise (A : Type) : Type := World -> Outcome A.

Definition resolve {A} (a : A) : Promise A := fun w => Resolved a w.

Definition throw {A} (e : Error) : Promise A := fun w => Rejected e w.

(** [const x = await p; k x] *)
Definition await {A B} (p : Promise A) (k : A -> Promise B) : Promise B :=
  fun w =>
    match p w with
    | Resolved a w' => k a w'
    | Rejected e w' => Rejected e w'
    | Pending => Pending
    end.

(** [try { p } catch (e) { h e }] *)
Definition try_catch {A} (p : Promise A) (h : Error -> Promise A) : Promise A :=
  fun w =>
    match p w with
    | Resolved a w' => Resolved a w'
    | Rejected e w' => h e w'
    | Pending => Pending
    end.

(** [try { p } finally { f }], for a [finally] block that cannot throw. *)
Definition try_finally {A} (p : Promise A) (f : World -> World) : Promise A :=
  fun w =>
    match p w with
    | Resolved a w' => Resolved a (f w')
    | Rejected e w' => Rejected e (f w')
    | Pending => Pending
    end.

(** A statement that only writes. *)
Definition exec (f : World -> World) : Promise unit :=
  fun w => Resolved tt (f w).

(** An expression that only reads. *)
Definition read {A} (f : World -> A) : Promise A :=
  fun w => Resolved (f w) w.

Notation "'let*' x := p 'in' k" := (await p (fun x => k))
  (at level 10, x name, p at level 100, k at level 200).

(** [void | OakResponse]: [None] is [undefined]. *)
Abbreviation Result := (option OakResponse).

(** [type OakNext] *)
Abbreviation OakNext := (Promise Result).

(** [type OakHandler].  The handler's first parameter is a reference to the
    context of the call in flight, the [ctx] of the state; the embedding
    leaves it implicit. *)
Abbreviation OakHandler := (OakNext -> Promise Result).

(** ** middleware.ts *)

(** What a caller may hand to [compose]: JavaScript does not check the
    declared [OakHandler[]]. *)
Inductive JsValue : Type :=
| JsUndefined
| JsNull
| JsBoolean (b : bool)
| JsNumber (n : Z)
| JsString (s : string)
| JsPlainObject
| JsFunction (f : OakHandler)
| JsArray (elems : list JsValue).

(** A synchronous call: it returns or it throws. *)
Inductive Completion (A : Type) : Type :=
| Return (a : A)
| Throw (e : Error).
Arguments Return {A} a.
Arguments Throw {A} e.

(** [typeof fn === 'function'] *)
Definition is_function (v : JsValue) : bool :=
  match v with JsFunction _ => true | _ => false end.

(** [Array.isArray] *)
Definition isArray (v : JsValue) : bool :=
  match v with JsArray _ => true | _ => false end.

(** The entries of an array, which [for ... of] and indexing read. *)
Definition elements (v : JsValue) : list JsValue :=
  match v with JsArray elems => elems | _ => [] end.

(** [!fn] is false for the truthy values. *)
Definition truthy (v : JsValue) : bool :=
  match v with
  | JsUndefined | JsNull => false
  | JsBoolean b => b
  | JsNumber n => negb (n =? 0)%Z
  | JsString s => negb (String.eqb s EmptyString)
  | JsPlainObject | JsFunction _ | JsArray _ => true
  end.

(** [fn(context, next)]: calling what is not a function throws. *)
Definition call (fn : JsValue) (next : OakNext) : Promise Result :=
  match fn with
  | JsFunction f => f next
  | _ => throw (TypeError "fn is not a function")
  end.

Module mw.

(** [urlPrefix] *)
Definition urlPrefix (prefix : string) : OakHandler := fun next =>
  let* _ := exec (fun w =>
    with_ctx (set_input (prefix +:+ input (req (ctx w))) (ctx w)) w) in
  next.

(** A synchronous call inside an [async] function: what it throws
    rejects the promise. *)
Definition settle {A} (c : Completion A) : Promise A :=
  match c with
  | Return a => resolve a
  | Throw e => throw e
  end.

Section headers.

(** [Object.fromEntries(new Headers(init).entries())]: the constructor of
    the runtime, which lower-cases the names, trims the values and throws
    a [TypeError] for a name or a value that no header can have, followed
    by the reading of the entries it holds. *)
Variable Headers_entries : HeadersInit -> Completion Headers.

(** [defaultHeaders]: the entries of the defaults are read first, then
    those of the request, which win in the object the two are spread
    into. *)
Definition defaultHeaders (defaultHeaders : HeadersInit) : OakHandler := fun next =>
  let* defaults := settle (Headers_entries defaultHeaders) in
  let* own := (fun w => settle (Headers_entries (headers (init (req (ctx w))))) w) in
  let* _ := exec (fun w =>
    let ri := init (req (ctx w)) in
    with_ctx (set_init (init_with_headers (HeadersRecord (own ∪ defaults)) ri)
                (ctx w)) w) in
  next.

End headers.

(** [new AbortController()] *)
Definition new_AbortController : Promise nat := fun w =>
  let c := fresh (dom (controllers w)) in
  Resolved c (with_controllers (<[c := false]> (controllers w)) w).

(** The delay the runtime gives a timer asked for [ms]: a delay under 1
    or over [2^31 - 1] is set to 1. *)
Definition timer_delay (ms : Z) : Z :=
  if ((1 <=? ms) && (ms <=? 2147483647))%Z then ms else 1.

(** [setTimeout(() => controller.abort(), ms)] *)
Definition setTimeout (c : nat) (ms : Z) : Promise nat := fun w =>
  let id := timer_seq w in
  Resolved id
    (with_timer_seq (S id)
       (with_timers
          (<[id := {| due := now w + timer_delay ms; aborts := c |}]> (timers w)) w)).

(** [clearTimeout(timeoutId)] *)
Definition clearTimeout (id : nat) (w : World) : World :=
  with_timers (delete id (timers w)) w.

(** [req.init.signal = controller.signal] *)
Definition assign_signal (c : nat) (w : World) : World :=
  let ri := init (req (ctx w)) in
  with_ctx (set_init (init_with_signal (Some {| controller := c |}) ri) (ctx w)) w.

(** [timeout] *)
Definition timeout (ms : Z) : OakHandler := fun next =>
  let* controller := new_AbortController in
  let* timeoutId := setTimeout controller ms in
  let* _ := exec (assign_signal controller) in
  try_finally
    (try_catch
       (let* _ := next in resolve None)
       (fun e =>
          if String.eqb (constructor_name e) "AbortError"
          then throw TimeoutError
          else throw e))
    (clearTimeout timeoutId).

(** [type RetryHandler]; the context it receives is the state's. *)
Abbreviation RetryHandler := (nat -> Error -> Promise bool).

(** The [do ... while (canRetry)] loop of [retry], entered with the
    attempts counted so far.  The body either returns, throws, or leaves
    [canRetry] true, so the loop test always continues. *)
Fixpoint retry_loop (fuel : nat) (handler : RetryHandler) (next : OakNext)
    (attempt : nat) : Promise Result :=
  match fuel with
  | O => fun _ => Pending
  | S fuel' =>
      let attempt := (attempt + 1)%nat in
      try_catch next
        (fun e =>
           let* canRetry := handler attempt e in
           if negb canRetry
           then throw e
           else retry_loop fuel' handler next attempt)
  end.

(** [retry] *)
Definition retry (fuel : nat) (handler : RetryHandler) : OakHandler :=
  fun next => retry_loop fuel handler next 0%nat.

(** [throwErrors]; destructuring an absent [ctx.res] is a [TypeError]. *)
Definition throwErrors : OakHandler := fun next =>
  let* _ := next in
  let* r := read (fun w => res (ctx w)) in
  match r with
  | None => throw (TypeError "Cannot destructure property 'status' of undefined")
  | Some r =>
      if (400 <=? status r)%Z
      then throw (Boom (status r))
      else resolve None
  end.

(** The [for ... of] loop of [compose]. *)
Fixpoint check_functions (elems : list JsValue) : Completion unit :=
  match elems with
  | [] => Return tt
  | fn :: rest =>
      if negb (is_function fn)
      then Throw (TypeError "Middleware must be composed of functions!")
      else check_functions rest
  end.

Section dispatch.

Variable middleware : list JsValue.
Variable next : option OakNext.

(** [let fn = middleware[i]; if (i === middleware.length) fn = next]:
    the terminal continuation takes no argument. *)
Definition pick (i : nat) : JsValue :=
  if (i =? length middleware)%nat
  then match next with
       | Some n => JsFunction (fun _ => n)
       | None => JsUndefined
       end
  else default JsUndefined (middleware !! i).

(** [dispatch].  A handler that throws at once and one that returns a
    rejected promise end alike here, so the [try]/[catch] that turns
    the one into the other leaves no trace. *)
Equations? dispatch (i : nat) : Promise Result
  by wf (S (length middleware) - i)%nat lt :=
dispatch i with inspect (truthy (pick i)) := {
  | exist _ false _ => resolve None
  | exist _ true Hfn => call (pick i) (dispatch (i + 1)%nat) }.
Proof.
  unfold pick in Hfn.
  destruct (Nat.eqb_spec i (length middleware)) as [Heq|Hne]; [lia|].
  destruct (middleware !! i) eqn:Hi; [|discriminate].
  apply lookup_lt_Some in Hi. lia.
Qed.

End dispatch.

(** The function [compose] returns. *)
Abbreviation Pipeline := (OakContext -> option OakNext -> Promise Result).

(** [compose] *)
Definition compose (middleware : JsValue) : Completion Pipeline :=
  if negb (isArray middleware)
  then Throw (TypeError "Middleware stack must be an array!")
  else
    match check_functions (elements middleware) with
    | Throw e => Throw e
    | Return _ =>
        Return (fun context next =>
                  let* _ := exec (with_ctx context) in
                  dispatch (elements middleware) next 0%nat)
    end.

End mw.

(** ** client.ts *)

(** [typeof fetch] *)
Abbreviation FetchType := (RequestInfo -> RequestInit -> Promise Response).

(** [{...headers}]: the own enumerable properties of the value.  An
    instance of [Headers] has none; an array has its indices, each with a
    pair, which reads as [name,value] where a header value is wanted. *)
Definition spread (h : HeadersInit) : gmap string string :=
  match h with
  | HeadersObject _ => ∅
  | HeadersRecord fields => fields
  | HeadersPairs pairs =>
      list_to_map (imap (fun i nv => (pretty i, fst nv +:+ "," +:+ snd nv)) pairs)
  end.

(** [{}] as a [RequestInit] *)
Definition empty_init : RequestInit :=
  {| method := None; headers := HeadersRecord ∅; body := None; signal := None |}.

(** [s.indexOf(t)] *)
Definition indexOf (s t : string) : Z :=
  match String.index 0 t s with
  | Some n => Z.of_nat n
  | None => -1
  end.

(** [class OakClient] *)
Record OakClient : Type := {
  fetchImplementation : FetchType;
  middleware : list OakHandler;
}.

(** [use] *)
Definition use (h : OakHandler) (this : OakClient) : OakClient :=
  {| fetchImplementation := fetchImplementation this;
     middleware := middleware this ++ [h] |}.

Section client.

(** [JSON.parse], which [response.json()] applies to the body, and
    [JSON.stringify]. *)
Variable JSON_parse : string -> option Json.
Variable JSON_stringify : Json -> string.

(** [response.json()]: the body parsed, or the error of the reply's
    [json()]. *)
Definition response_json (response : Response) : Promise Json :=
  match JSON_parse (resp_body response) with
  | Some j => resolve j
  | None => throw (resp_json_error response)
  end.

(** [response.text()] *)
Definition response_text (response : Response) : Promise string :=
  resolve (resp_body response).

(** The function [fetch] hands to the pipeline as its [next]. *)
Definition transport_call (this : OakClient) : OakNext :=
  try_catch
    (let* r := read (fun w => req (ctx w)) in
     let* response := fetchImplementation this (input r) (init r) in
     let contentTypeHeader :=
       default EmptyString (resp_headers response !! "content-type") in
     let* dr :=
       (if (0 <=? indexOf contentTypeHeader "application/json")%Z
        then let* d := response_json response in resolve (d, None)
        else let* t := response_text response in resolve (JObject [], Some t)) in
     let* _ := exec (fun w =>
       with_ctx (set_res (Some {| status := resp_status response;
                                  res_headers := resp_headers response;
                                  data := fst dr;
                                  raw := snd dr |}) (ctx w)) w) in
     resolve None)
    (fun e =>
       let* _ := exec (fun w => with_ctx (set_error (Some e) (ctx w)) w) in
       throw e).

(** [fetch]; what it resolves with is [ctx.res], present or not. *)
Definition fetch (this : OakClient) (input : RequestInfo) (init : RequestInit)
  : Promise (option OakResponse) :=
  let ctx0 := {| req := {| input := input; init := init |};
                 res := None; error := None |} in
  match mw.compose (JsArray (JsFunction <$> middleware this)) with
  | Throw e => throw e
  | Return fn =>
      let* _ := fn ctx0 (Some (transport_call this)) in
      read (fun w => res (ctx w))
  end.

(** [get] *)
Definition get (this : OakClient) (input : RequestInfo)
    (init : option RequestInit) : Promise (option OakResponse) :=
  fetch this input (init_with_method "GET" (default empty_init init)).

(** [post] *)
Definition post (this : OakClient) (input : RequestInfo)
    (init : option RequestInit) : Promise (option OakResponse) :=
  fetch this input (init_with_method "POST" (default empty_init init)).

(** [postJson] *)
Definition postJson (this : OakClient) (input : RequestInfo) (body : Json)
    (init : option RequestInit) : Promise (option OakResponse) :=
  let i := default empty_init init in
  fetch this input
    {| method := Some "POST";
       headers := HeadersRecord
                    (<["content-type" := "application/json"]> (spread (headers i)));
       body := Some (JSON_stringify body);
       signal := signal i |}.

End client.

(** The chainable registrations of the client: each is [use] of the
    handler of the same name. *)
Definition urlPrefix (prefix : string) (this : OakClient) : OakClient :=
  use (mw.urlPrefix prefix) this.

Definition defaultHeaders (Headers_entries : HeadersInit -> Completion Headers)
    (h : HeadersInit) (this : OakClient) : OakClient :=
  use (mw.defaultHeaders Headers_entries h) this.

Definition throwErrors (this : OakClient) : OakClient :=
  use mw.throwErrors this.

Definition timeout (ms : Z) (this : OakClient) : OakClient :=
  use (mw.timeout ms) this.

Definition retry (fuel : nat) (handler : mw.RetryHandler)
    (this : OakClient) : OakClient :=
  use (mw.retry fuel handler) this.

(** * Properties *)

(** ** Notions the properties are stated with *)

(** *** The composer *)

(** What [dispatch] runs once the handlers are used up. *)
Definition terminal (next : option OakNext) : OakNext :=
  match next with
  | Some n => n
  | None => resolve None
  end.

(** Handlers nested around a continuation, the first one outermost. *)
Definition nest (hs : list OakHandler) (k : OakNext) : OakNext :=
  foldr (fun h inner => h inner) k hs.

(** The pipeline [compose] builds from handlers. *)
Definition pipeline (hs : list OakHandler) : mw.Pipeline :=
  fun context next =>
    let* _ := exec (with_ctx context) in
    mw.dispatch (JsFunction <$> hs) next 0%nat.

(** The errors of [compose]: the kind the specification names
    InvalidMiddleware. *)
Definition InvalidMiddleware (e : Error) : Prop :=
  e = TypeError "Middleware stack must be an array!" \/
  e = TypeError "Middleware must be composed of functions!".

(** *** Handlers around their [next()] *)

(** A handler that runs its pre-logic, awaits its [next] once, runs its
    post-logic and returns what [next] resolved with:
    [async (ctx, next) => { before; const r = await next(); after; return r }]. *)
Record Layer : Type := {
  before : World -> World;
  after : World -> World;
}.

Definition layer_handler (l : Layer) : OakHandler := fun next =>
  let* _ := exec (before l) in
  let* r := next in
  let* _ := exec (after l) in
  resolve r.

(** The pre-logics, in registration order. *)
Definition run_before (ls : list Layer) (w : World) : World :=
  foldl (fun acc l => before l acc) w ls.

(** The post-logics, the last registered first. *)
Definition run_after (ls : list Layer) (w : World) : World :=
  foldr (fun l acc => after l acc) w ls.

(** *** Probes *)

(** [record(ev)]: a probe appends to the trace. *)
Definition log (ev : Event) (w : World) : World :=
  with_trace (trace w ++ [ev]) w.

(** The handler of the marker test: it appends [<label>pre] before and
    [<label>post] after [next()]. *)
Definition marker (label : string) : Layer :=
  {| before := log (Mark (label +:+ "pre"));
     after := log (Mark (label +:+ "post")) |}.

(** A spy on the downstream continuation: it records every call and every
    failure, and lets both through. *)
Definition spy_next (next : OakNext) : OakNext :=
  let* _ := exec (log NextCalled) in
  try_catch next
    (fun e => let* _ := exec (log (NextRejected e)) in throw e).

(** A spy on the decision function: it records the attempt number and the
    error it is asked about. *)
Definition spy_decision (handler : mw.RetryHandler) : mw.RetryHandler :=
  fun attempt e =>
    let* _ := exec (log (Decide attempt e)) in
    handler attempt e.

(** What the two spies record when downstream fails with [es] one after
    the other, the first failure being attempt [from]. *)
Fixpoint failed_attempts (from : nat) (es : list Error) : list Event :=
  match es with
  | [] => []
  | e :: es' =>
      [NextCalled; NextRejected e; Decide from e] ++ failed_attempts (S from) es'
  end.

(** How often downstream was called, by the record. *)
Fixpoint calls (tr : list Event) : nat :=
  match tr with
  | [] => 0
  | NextCalled :: tr' => S (calls tr')
  | _ :: tr' => calls tr'
  end.

(** *** The timeout: entry, abort, timer *)

(** The test of [timeout]'s [catch]: the error is the abort the transport
    rejects with once its signal is aborted. *)
Definition is_abort (e : Error) : bool :=
  String.eqb (constructor_name e) "AbortError".

(** What [timeout] rejects with when downstream rejects with [e]. *)
Definition reclassify (e : Error) : Error :=
  if is_abort e then TimeoutError else e.

(** The state in which [timeout ms] calls [next()]: a new controller, its
    timer armed, its signal on the request. *)
Definition timeout_entry (ms : Z) (w : World) : World :=
  let c := fresh (dom (controllers w)) in
  let w1 := with_controllers (<[c := false]> (controllers w)) w in
  let w2 := with_timer_seq (S (timer_seq w1))
              (with_timers
                 (<[timer_seq w1 := {| due := now w1 + mw.timer_delay ms; aborts := c |}]>
                    (timers w1)) w1) in
  mw.assign_signal c w2.

(** The runtime fires an armed timer: the timer is spent and its callback
    aborts its controller.  A timer that is not armed cannot fire. *)
Definition fire (id : nat) (w : World) : option World :=
  match timers w !! id with
  | Some t =>
      Some (with_controllers (<[aborts t := true]> (controllers w))
              (with_timers (delete id (timers w)) w))
  | None => None
  end.

(** *** Responses *)

(** A structured HTTP error: a [Boom] with its status code. *)
Definition http_error (e : Error) : option Z :=
  match e with
  | Boom statusCode => Some statusCode
  | _ => None
  end.

(** What [throwErrors] fails with when there is no response to read the
    status of. *)
Definition no_response : Error :=
  TypeError "Cannot destructure property 'status' of undefined".

(** The test [fetch] makes on the content type of a reply: the header
    holds [application/json] somewhere. *)
Definition indicates_json (response : Response) : bool :=
  (0 <=? indexOf (default EmptyString (resp_headers response !! "content-type"))
                 "application/json")%Z.

(** [r] is the normalized response of the reply [response]: its status and
    headers, and the body as parsed JSON in [data] or as text in [raw]. *)
Definition normalized (JSON_parse : string -> option Json)
    (response : Response) (r : OakResponse) : Prop :=
  status r = resp_status response /\
  res_headers r = resp_headers response /\
  if indicates_json response
  then JSON_parse (resp_body response) = Some (data r) /\ raw r = None
  else data r = JObject [] /\ raw r = Some (resp_body response).

(** The transport of the client gave the reply [response] to some call. *)
Definition replied (this : OakClient) (response : Response) : Prop :=
  exists input init w w',
    fetchImplementation this input init w = Resolved response w'.

(** A handler that resolves only after its [next()] resolved, and with the
    response on the context that [next()] left there. *)
Definition keeps_response (h : OakHandler) : Prop :=
  forall (next : OakNext) (Q : option OakResponse -> Prop),
    (forall w v w', next w = Resolved v w' -> Q (res (ctx w'))) ->
    forall w v w', h next w = Resolved v w' -> Q (res (ctx w')).

(** The calls of the client's API. *)
Inductive ApiCall : Type :=
| CallGet (input : string) (init : option RequestInit)
| CallPost (input : string) (init : option RequestInit)
| CallPostJson (input : string) (body : Json) (init : option RequestInit)
| CallFetch (input : string) (init : RequestInit).

Definition run_call (JSON_parse : string -> option Json)
    (JSON_stringify : Json -> string) (this : OakClient) (c : ApiCall)
  : Promise (option OakResponse) :=
  match c with
  | CallGet input init => get JSON_parse this input init
  | CallPost input init => post JSON_parse this input init
  | CallPostJson input body init =>
      postJson JSON_parse JSON_stringify this input body init
  | CallFetch input init => fetch JSON_parse this input init
  end.

(** *** Invocations that cannot be told apart *)

(** Two settlements that an observer of the call cannot tell apart: the
    same way of settling, the same value or error, the same context. *)
Definition same_effects {A} (o1 o2 : Outcome A) : Prop :=
  match o1, o2 with
  | Resolved a w1, Resolved b w2 => a = b /\ ctx w1 = ctx w2
  | Rejected e w1, Rejected f w2 => e = f /\ ctx w1 = ctx w2
  | Pending, Pending => True
  | _, _ => False
  end.

(** A computation that holds no state of its own: what it does depends on
    the context it is given and on nothing else of the program. *)
Definition stateless {A} (p : Promise A) : Prop :=
  forall w1 w2, ctx w1 = ctx w2 -> same_effects (p w1) (p w2).

(** A handler that holds no mutable shared state: around a stateless
    continuation it is stateless. *)
Definition stateless_handler (h : OakHandler) : Prop :=
  forall next : OakNext, stateless next -> stateless (h next).

(** ** Fixtures: contexts, replies, transports and handlers of the tests *)

(** The error the transport of the tests gives a body that is no JSON
    document. *)
Definition invalid_json : Error :=
  ErrorObject "FetchError" "invalid json response body".

(** A [Headers] constructor for the tests, whose header names are in lower
    case and whose values have no space around them: it takes every
    header as it is. *)
Definition plain_entries (h : HeadersInit) : Completion Headers :=
  match h with
  | HeadersObject entries => Return entries
  | HeadersRecord fields => Return fields
  | HeadersPairs pairs => Return (list_to_map pairs)
  end.

(** The headers the test server finds on a request. *)
Definition sent_headers (ri : RequestInit) : Headers :=
  match plain_entries (headers ri) with
  | Return h => h
  | Throw _ => ∅
  end.

(** A context with a request and nothing else. *)
Definition fresh_context (input : string) (init : RequestInit) : OakContext :=
  {| req := {| input := input; init := init |}; res := None; error := None |}.

(** A program that has not run anything yet. *)
Definition idle : World :=
  {| ctx := fresh_context "http://www.example.com/resource" empty_init;
     now := 0; timers := ∅; timer_seq := 0; controllers := ∅; vars := ∅;
     trace := [] |}.

(** A reply [200] whose JSON body was parsed. *)
Definition ok_response : OakResponse :=
  {| status := 200; res_headers := {["content-type" := "application/json"]};
     data := JObject [("foo", JString "bar")]; raw := None |}.

(** A context that holds the response [r]. *)
Definition responded (r : OakResponse) (w : World) : World :=
  with_ctx (set_res (Some r) (ctx w)) w.

(** A reply with the given status and an empty JSON body. *)
Definition reply (status : Z) : OakResponse :=
  {| status := status; res_headers := ∅; data := JObject []; raw := None |}.

(** A terminal continuation that puts a reply of the given status on the
    context. *)
Definition answer (status : Z) : OakNext :=
  let* _ := exec (responded (reply status)) in
  resolve None.

(** A handler as the retry test has it, with a counter in its closure: it
    fails until the counter, which survives the call, reaches [limit]. *)
Definition counting_handler (limit : Z) : OakHandler := fun next =>
  let* _ := exec (fun w =>
    with_vars (<["attempt" := default 1 (vars w !! "attempt") + 1]> (vars w)) w) in
  let* attempt := read (fun w => default 1 (vars w !! "attempt")) in
  if (attempt <? limit)%Z
  then throw (ErrorObject "Error" "Unrecoverable Error")
  else next.

(** A parser and a printer for the one document the examples exchange. *)
Definition parse_empty_object (s : string) : option Json :=
  if String.eqb s "{}" then Some (JObject []) else None.

Definition print_empty_object (j : Json) : string := "{}".

(** The reply of the test server to [/resource] and [/delay]: [200] and a
    JSON body, here the empty object. *)
Definition json_reply : Response :=
  {| resp_status := 200;
     resp_headers := {["content-type" := "application/json"]};
     resp_body := "{}";
     resp_json_error := invalid_json |}.

(** A transport that answers every request with [json_reply]. *)
Definition json_transport : RequestInfo -> RequestInit -> Promise Response :=
  fun _ _ => resolve json_reply.

(** The test server on [/authenticated]: [401] without an [authorization]
    header, [200] with one. *)
Definition authenticated_transport : RequestInfo -> RequestInit -> Promise Response :=
  fun _ init =>
    resolve {| resp_status :=
                 if decide (is_Some (sent_headers init !! "authorization"))
                 then 200 else 401;
               resp_headers := {["content-type" := "application/json"]};
               resp_body := "{}";
               resp_json_error := invalid_json |}.

(** The test server on [/error]: the status the [x-status] header asks
    for, [500] without one. *)
Definition error_transport (x_status : option Z)
  : RequestInfo -> RequestInit -> Promise Response :=
  fun _ _ =>
    resolve {| resp_status := default 500 x_status;
               resp_headers := {["content-type" := "application/json"]};
               resp_body := "{}";
               resp_json_error := invalid_json |}.

(** The decision function of the test that retries a [401] once, with a
    bearer token. *)
Definition retry_unauthorized : mw.RetryHandler := fun attempt e =>
  if (1 <? attempt)%nat then resolve false
  else match e with
       | Boom 401 =>
           let* _ := exec (fun w =>
             let ri := init (req (ctx w)) in
             with_ctx (set_init
                         (init_with_headers
                            (HeadersObject
                               (<["authorization" := "Bearer token"]> (sent_headers ri)))
                            ri)
                         (ctx w)) w) in
           resolve true
       | _ => resolve false
       end.

(** The first handler of the timeout test: it expects [next()] to fail
    with a [TimeoutError], which it swallows. *)
Definition expect_timeout : OakHandler := fun next =>
  try_catch
    (let* _ := next in
     throw (ErrorObject "Error" "expected timeout to hit. false success!"))
    (fun e =>
       match e with
       | TimeoutError => resolve None
       | _ => throw (ErrorObject "JestAssertionError" "expect(received).toBe(expected)")
       end).

(** ** The runtime: time, timers that fire, a transport that takes time *)

(** Has [controller.abort()] run for the controller of the signal? *)
Definition aborted (s : AbortSignal) (w : World) : bool :=
  default false (controllers w !! controller s).

(** Time passes until [t]: the timers due by then fire. *)
Definition elapse_until (t : Z) (w : World) : World :=
  with_now t
    (map_fold
       (fun id tm acc => if (due tm <=? t)%Z then default acc (fire id acc) else acc)
       w (timers w)).

(** The first moment up to [t] at which an armed timer aborts the
    controller [c], if there is one. *)
Definition first_abort (c : nat) (t : Z) (w : World) : option Z :=
  map_fold
    (fun _ tm acc =>
       if ((aborts tm =? c)%nat && (due tm <=? t)%Z)%bool
       then Some (from_option (Z.min (due tm)) (due tm) acc)
       else acc)
    None (timers w).

(** The error a fetch rejects with when its signal is aborted. *)
Definition AbortError : Error :=
  ErrorObject "AbortError" "The user aborted a request.".

(** A transport that takes [delay] ms to answer with [reply], and rejects
    as soon as the signal of the request is aborted. *)
Definition delayed_transport (delay : Z) (reply : Response)
  : RequestInfo -> RequestInit -> Promise Response :=
  fun _ init w =>
    match signal init with
    | None => Resolved reply (elapse_until (now w + delay) w)
    | Some s =>
        if aborted s w then Rejected AbortError w
        else match first_abort (controller s) (now w + delay) w with
             | Some t => Rejected AbortError (elapse_until t w)
             | None => Resolved reply (elapse_until (now w + delay) w)
             end
    end.

(** A client on a transport that answers after [delay] ms, behind
    [timeout ms]. *)
Definition deadline_client (ms delay : Z) (reply : Response) : OakClient :=
  {| fetchImplementation := delayed_transport delay reply;
     middleware := [mw.timeout ms] |}.

(** ** Notions for the rest of the code *)

(** The request target after the handlers of [urlPrefix] for [prefixes],
    registered in this order, have run. *)
Definition prefixed (prefixes : list string) (input : string) : string :=
  foldl (fun acc p => p +:+ acc) input prefixes.

(** Registration of [hs], one [use] after the other. *)
Definition use_all (hs : list OakHandler) (this : OakClient) : OakClient :=
  foldl (fun c h => use h c) this hs.

(** The value of the [content-type] header holds [application/json]
    somewhere. *)
Definition mentions_json (response : Response) : Prop :=
  exists v pre post,
    resp_headers response !! "content-type" = Some v /\
    v = pre +:+ "application/json" +:+ post.

(** *** What a call shows of itself *)

(** What can be observed of the context of a call: its fields, and of the
    signal on the request whether there is one and whether it is aborted.
    Which object the signal is cannot be observed: two signals that were
    made for two calls are two objects, and alike. *)
Record View : Type := {
  view_input : string;
  view_method : option string;
  view_headers : HeadersInit;
  view_body : option string;
  view_signal : option bool;
  view_res : option OakResponse;
  view_error : option Error;
}.

Definition view (w : World) : View :=
  {| view_input := input (req (ctx w));
     view_method := method (init (req (ctx w)));
     view_headers := headers (init (req (ctx w)));
     view_body := body (init (req (ctx w)));
     view_signal := (fun s => aborted s w) <$> signal (init (req (ctx w)));
     view_res := res (ctx w);
     view_error := error (ctx w) |}.

(** Two settlements with the same observable effects: the same way of
    settling, the same value or error, the same view of the context. *)
Definition same_observation {A} (o1 o2 : Outcome A) : Prop :=
  match o1, o2 with
  | Resolved a w1, Resolved b w2 => a = b /\ view w1 = view w2
  | Rejected e w1, Rejected f w2 => e = f /\ view w1 = view w2
  | Pending, Pending => True
  | _, _ => False
  end.

(** A computation that shares no state with another run of itself: its
    observable effects depend on what can be observed of the context it
    starts with, and on nothing else of the program. *)
Definition isolated {A} (p : Promise A) : Prop :=
  forall w1 w2, view w1 = view w2 -> same_observation (p w1) (p w2).

(** A handler that holds no mutable shared state. *)
Definition isolated_handler (h : OakHandler) : Prop :=
  forall next : OakNext, isolated next -> isolated (h next).

(** ** The composer *)

Section dispatch_facts.

Variable middleware : list JsValue.
Variable next : option OakNext.

(** The body of [dispatch], as an equation. *)
Lemma dispatch_body i :
  mw.dispatch middleware next i =
  if truthy (mw.pick middleware next i)
  then call (mw.pick middleware next i) (mw.dispatch middleware next (i + 1)%nat)
  else resolve None.
Proof.
  rewrite mw.dispatch_equation_1.
  destruct (inspect _) as [[] H]; cbn; rewrite H; reflexivity.
Qed.

End dispatch_facts.

Lemma pick_handler (hs : list OakHandler) next i h :
  hs !! i = Some h -> mw.pick (JsFunction <$> hs) next i = JsFunction h.
Proof.
  intros Hi. unfold mw.pick. rewrite length_fmap.
  pose proof (lookup_lt_Some _ _ _ Hi) as Hlt.
  destruct (Nat.eqb_spec i (length hs)); [lia|].
  rewrite list_lookup_fmap, Hi. reflexivity.
Qed.

Lemma dispatch_end (hs : list OakHandler) next :
  mw.dispatch (JsFunction <$> hs) next (length hs) = terminal next.
Proof.
  rewrite dispatch_body. unfold mw.pick.
  rewrite length_fmap, Nat.eqb_refl.
  destruct next; reflexivity.
Qed.

(** [dispatch i] is the handlers from [i] on, nested around the terminal
    continuation. *)
Lemma dispatch_nest (hs : list OakHandler) next i :
  (i <= length hs)%nat ->
  mw.dispatch (JsFunction <$> hs) next i = nest (drop i hs) (terminal next).
Proof.
  intros Hi. remember (length hs - i)%nat as k eqn:Hk.
  revert i Hi Hk. induction k as [|k IH]; intros i Hi Hk.
  - assert (i = length hs) as -> by lia.
    rewrite drop_all. apply dispatch_end.
  - destruct (hs !! i) as [h|] eqn:Hh.
    2:{ apply lookup_ge_None in Hh. lia. }
    rewrite dispatch_body, (pick_handler _ _ _ _ Hh). cbn.
    rewrite (drop_S _ _ _ Hh). cbn.
    rewrite IH by lia. replace (i + 1)%nat with (S i) by lia. reflexivity.
Qed.

Lemma check_functions_handlers (hs : list OakHandler) :
  mw.check_functions (JsFunction <$> hs) = Return tt.
Proof. induction hs as [|h hs IH]; [reflexivity|exact IH]. Qed.

Lemma check_functions_throw elems :
  (exists v, v ∈ elems /\ is_function v = false) ->
  mw.check_functions elems =
    Throw (TypeError "Middleware must be composed of functions!").
Proof.
  intros (v & Hin & Hv). induction elems as [|x elems IH].
  - inversion Hin.
  - cbn. destruct (is_function x) eqn:Hx; [|reflexivity]. cbn.
    apply IH. apply elem_of_cons in Hin as [->|Hin]; [congruence|exact Hin].
Qed.

Lemma check_functions_return elems :
  mw.check_functions elems = Return tt ->
  exists hs : list OakHandler, elems = JsFunction <$> hs.
Proof.
  induction elems as [|x elems IH]; intros H.
  - exists []. reflexivity.
  - cbn in H. destruct x; try discriminate. cbn in H.
    destruct (IH H) as [hs ->]. exists (f :: hs). reflexivity.
Qed.

Lemma compose_handlers (hs : list OakHandler) :
  mw.compose (JsArray (JsFunction <$> hs)) = Return (pipeline hs).
Proof.
  unfold mw.compose. cbn [isArray negb elements].
  rewrite check_functions_handlers. reflexivity.
Qed.

(** [compose] returns for arrays of handlers only, and then their
    pipeline. *)
Lemma compose_return_inv v fn :
  mw.compose v = Return fn ->
  exists hs : list OakHandler, v = JsArray (JsFunction <$> hs) /\ fn = pipeline hs.
Proof.
  unfold mw.compose. destruct v as [| | | | | | |elems]; try discriminate.
  cbn [isArray negb elements].
  destruct (mw.check_functions elems) as [[]|e] eqn:Hc; [|discriminate].
  destruct (check_functions_return elems Hc) as [hs ->].
  intros H. injection H as <-. exists hs. split; reflexivity.
Qed.

Lemma pipeline_nest (hs : list OakHandler) context next w :
  pipeline hs context next w = nest hs (terminal next) (with_ctx context w).
Proof.
  unfold pipeline, await, exec. rewrite dispatch_nest by lia.
  rewrite drop_0. reflexivity.
Qed.

(** C5.  [compose] validates its argument when it is called: it throws an
    InvalidMiddleware error when the argument is not an array and when an
    entry of the array is not a function, and it returns the pipeline for
    every array of functions.  It is a synchronous call that is given no
    state to run a handler in. *)
Theorem compose_validation (v : JsValue) :
  (isArray v = false ->
     exists e, mw.compose v = Throw e /\ InvalidMiddleware e) /\
  (forall elems x,
     v = JsArray elems -> x ∈ elems -> is_function x = false ->
     exists e, mw.compose v = Throw e /\ InvalidMiddleware e) /\
  (forall hs : list OakHandler,
     v = JsArray (JsFunction <$> hs) ->
     exists fn, mw.compose v = Return fn).
Proof.
  split; [|split].
  - intros Hv. exists (TypeError "Middleware stack must be an array!").
    split; [|left; reflexivity].
    unfold mw.compose. rewrite Hv. reflexivity.
  - intros elems x -> Hin Hx.
    exists (TypeError "Middleware must be composed of functions!").
    split; [|right; reflexivity].
    unfold mw.compose. cbn [isArray negb elements].
    rewrite check_functions_throw; [reflexivity|].
    exists x. split; assumption.
  - intros hs ->. exists (pipeline hs). apply compose_handlers.
Qed.

(** A string, an array holding a number, and an array of two handlers. *)
Lemma compose_validation_witness :
  (exists e, mw.compose (JsString "handlers") = Throw e /\ InvalidMiddleware e) /\
  (exists e, mw.compose (JsArray [JsFunction mw.throwErrors; JsNumber 7]) = Throw e
             /\ InvalidMiddleware e) /\
  (exists fn, mw.compose (JsArray [JsFunction mw.throwErrors;
                                   JsFunction (mw.urlPrefix "http://host")])
              = Return fn).
Proof.
  split; [|split].
  - apply (compose_validation (JsString "handlers")). reflexivity.
  - apply (compose_validation (JsArray [JsFunction mw.throwErrors; JsNumber 7]))
      with (elems := [JsFunction mw.throwErrors; JsNumber 7]) (x := JsNumber 7).
    + reflexivity.
    + apply list_elem_of_In. simpl. right. left. reflexivity.
    + reflexivity.
  - apply (compose_validation
             (JsArray [JsFunction mw.throwErrors;
                       JsFunction (mw.urlPrefix "http://host")]))
      with (hs := [mw.throwErrors; mw.urlPrefix "http://host"]).
    reflexivity.
Defined.

(** ** Onion ordering *)

Lemma nest_layers (ls : list Layer) (k : OakNext) (w : World) :
  nest (layer_handler <$> ls) k w =
  match k (run_before ls w) with
  | Resolved r w' => Resolved r (run_after ls w')
  | Rejected e w' => Rejected e w'
  | Pending => Pending
  end.
Proof.
  revert w. induction ls as [|l ls IH]; intros w.
  - cbn. destruct (k w); reflexivity.
  - change (nest (layer_handler <$> l :: ls) k w)
      with (layer_handler l (nest (layer_handler <$> ls) k) w).
    unfold layer_handler at 1. unfold await, exec. rewrite IH.
    change (run_before (l :: ls) w) with (run_before ls (before l w)).
    destruct (k (run_before ls (before l w))); reflexivity.
Qed.

(** C1.  The pipeline composed from handlers that each call their [next]
    once runs the pre-logic of every handler in registration order, then
    the terminal continuation, then the post-logic of every handler in
    reverse registration order; a failure of the terminal continuation
    passes through. *)
Theorem onion_ordering (ls : list Layer) :
  exists fn,
    mw.compose (JsArray (JsFunction <$> (layer_handler <$> ls))) = Return fn /\
    forall context (next : OakNext) w,
      fn context (Some next) w =
      match next (run_before ls (with_ctx context w)) with
      | Resolved r w' => Resolved r (run_after ls w')
      | Rejected e w' => Rejected e w'
      | Pending => Pending
      end.
Proof.
  exists (pipeline (layer_handler <$> ls)). split.
  - apply compose_handlers.
  - intros context next w. rewrite pipeline_nest. apply nest_layers.
Qed.

Lemma run_before_markers labels w :
  trace (run_before (marker <$> labels) w) =
  trace w ++ ((fun l => Mark (l +:+ "pre")) <$> labels).
Proof.
  revert w. induction labels as [|l labels IH]; intros w; cbn.
  - rewrite app_nil_r. reflexivity.
  - unfold run_before in IH. rewrite IH. cbn. rewrite <- app_assoc. reflexivity.
Qed.

Lemma run_after_markers labels w :
  trace (run_after (marker <$> labels) w) =
  trace w ++ reverse ((fun l => Mark (l +:+ "post")) <$> labels).
Proof.
  induction labels as [|l labels IH].
  - cbn. rewrite app_nil_r. reflexivity.
  - rewrite !fmap_cons, reverse_cons, app_assoc, <- IH. reflexivity.
Qed.

(** The marker chain of any length, around a terminal continuation that
    leaves its own mark. *)
Lemma onion_markers (labels : list string) context w :
  exists w',
    pipeline (layer_handler <$> (marker <$> labels)) context
      (Some (let* _ := exec (log (Mark "call")) in resolve None)) w
    = Resolved None w' /\
    trace w' = trace w ++ ((fun l => Mark (l +:+ "pre")) <$> labels)
                       ++ [Mark "call"]
                       ++ reverse ((fun l => Mark (l +:+ "post")) <$> labels).
Proof.
  rewrite pipeline_nest, nest_layers. cbn.
  eexists. split; [reflexivity|].
  rewrite run_after_markers. cbn. rewrite run_before_markers. cbn.
  rewrite <- !app_assoc. reflexivity.
Qed.

(** ** Retry *)

Lemma calls_app tr1 tr2 : calls (tr1 ++ tr2) = (calls tr1 + calls tr2)%nat.
Proof.
  induction tr1 as [|ev tr1 IH]; [reflexivity|].
  destruct ev; cbn; rewrite IH; reflexivity.
Qed.

Lemma calls_failed_attempts from es :
  calls (failed_attempts from es) = length es.
Proof.
  revert from. induction es as [|e es IH]; intros from; [reflexivity|].
  cbn. rewrite IH. reflexivity.
Qed.

Section retry_facts.

Variable N : nat.
Variable handler : mw.RetryHandler.
Variable next : OakNext.

(** Downstream fails whenever it is called and leaves the record alone. *)
Hypothesis next_fails :
  forall w, exists e w', next w = Rejected e w' /\ trace w' = trace w.

(** The decision function allows the attempts before the [N]th and refuses
    the [N]th; it leaves the record alone. *)
Hypothesis handler_allows :
  forall attempt e w,
    (1 <= attempt <= N)%nat ->
    exists w', handler attempt e w = Resolved (attempt <? N)%nat w' /\
               trace w' = trace w.

(** The loop entered after [attempt] failed attempts, with [k] to go. *)
Lemma retry_loop_fails k : forall attempt fuel w,
  (attempt + S k = N)%nat -> (S k <= fuel)%nat ->
  exists es e w',
    length es = S k /\ last es = Some e /\
    mw.retry_loop fuel (spy_decision handler) (spy_next next) attempt w
      = Rejected e w' /\
    trace w' = trace w ++ failed_attempts (S attempt) es.
Proof.
  induction k as [|k IH]; intros attempt fuel w HN Hfuel;
    (destruct fuel as [|fuel]; [lia|]);
    cbn [mw.retry_loop];
    unfold try_catch, spy_next at 1, await, exec, throw;
    destruct (next_fails (log NextCalled w)) as (e & w1 & Hnext & Htr1);
    unfold try_catch; rewrite Hnext;
    unfold spy_decision at 1, await, exec;
    destruct (handler_allows (attempt + 1)%nat e
                (log (Decide (attempt + 1) e) (log (NextRejected e) w1)))
      as (w2 & Hd & Htr2); [lia| |lia|].
  - rewrite Hd. replace (attempt + 1 <? N)%nat with false
      by (symmetry; apply Nat.ltb_ge; lia).
    cbn. exists [e], e, w2. repeat split.
    rewrite Htr2. cbn. rewrite Htr1. cbn.
    replace (attempt + 1)%nat with (S attempt) by lia.
    rewrite <- !app_assoc. reflexivity.
  - rewrite Hd. replace (attempt + 1 <? N)%nat with true
      by (symmetry; apply Nat.ltb_lt; lia).
    cbn [negb].
    destruct (IH (attempt + 1)%nat fuel w2) as (es & e' & w' & Hlen & Hlast & Hrun & Htr);
      [lia|lia|].
    exists (e :: es), e', w'. split; [cbn; lia|]. split.
    { destruct es; [discriminate|]. exact Hlast. }
    split; [exact Hrun|].
    rewrite Htr, Htr2. cbn. rewrite Htr1. cbn.
    replace (attempt + 1)%nat with (S attempt) by lia.
    rewrite <- !app_assoc. reflexivity.
Qed.

End retry_facts.

(** A call of downstream that succeeds ends the loop with its result. *)
Lemma retry_first_success fuel handler (next : OakNext) w v w' :
  next w = Resolved v w' ->
  mw.retry (S fuel) handler next w = Resolved v w'.
Proof.
  intros Hnext. unfold mw.retry. cbn [mw.retry_loop]. unfold try_catch.
  rewrite Hnext. reflexivity.
Qed.

(** C2.  With a decision function that allows the attempts [1 .. N-1] and
    refuses attempt [N], and a downstream that fails at every call, [retry]
    calls downstream exactly [N] times and rejects with the error of the
    [N]th call, unchanged; the decision function is asked after every
    failure, with the attempt numbers [1], [2], ..., [N] and the error of
    that attempt. *)
Theorem retry_accounting (N fuel : nat) (handler : mw.RetryHandler)
    (next : OakNext) :
  (1 <= N)%nat -> (N <= fuel)%nat ->
  (forall w, exists e w', next w = Rejected e w' /\ trace w' = trace w) ->
  (forall attempt e w,
     (1 <= attempt <= N)%nat ->
     exists w', handler attempt e w = Resolved (attempt <? N)%nat w' /\
                trace w' = trace w) ->
  forall w, exists es e w',
    length es = N /\ last es = Some e /\
    mw.retry fuel (spy_decision handler) (spy_next next) w = Rejected e w' /\
    trace w' = trace w ++ failed_attempts 1 es /\
    calls (trace w') = (calls (trace w) + N)%nat.
Proof.
  intros HN Hfuel Hnext Hd w.
  destruct N as [|k]; [lia|].
  destruct (retry_loop_fails (S k) handler next Hnext Hd k 0%nat fuel w)
    as (es & e & w' & Hlen & Hlast & Hrun & Htr); [lia|lia|].
  exists es, e, w'. repeat split; try assumption.
  rewrite Htr, calls_app, calls_failed_attempts, Hlen. reflexivity.
Qed.

Lemma retry_accounting_witness :
  exists es e w',
    length es = 3%nat /\ last es = Some e /\
    mw.retry 5 (spy_decision (fun attempt _ => resolve (attempt <? 3)%nat))
      (spy_next (throw (ErrorObject "Error" "Unrecoverable Error"))) idle
      = Rejected e w' /\
    trace w' = trace idle ++ failed_attempts 1 es /\
    calls (trace w') = (calls (trace idle) + 3)%nat.
Proof.
  apply (retry_accounting 3 5 (fun attempt _ => resolve (attempt <? 3)%nat)
           (throw (ErrorObject "Error" "Unrecoverable Error"))).
  - lia.
  - lia.
  - intros w. exists (ErrorObject "Error" "Unrecoverable Error"), w.
    split; reflexivity.
  - intros attempt e w _. exists w. split; reflexivity.
Defined.

(** ** Timeout *)

(** [timeout] runs [next()] once, in the state of its entry, and leaves
    through its [finally]. *)
Lemma timeout_run ms (next : OakNext) w :
  mw.timeout ms next w =
  match next (timeout_entry ms w) with
  | Resolved _ w2 => Resolved None (mw.clearTimeout (timer_seq w) w2)
  | Rejected e w2 => Rejected (reclassify e) (mw.clearTimeout (timer_seq w) w2)
  | Pending => Pending
  end.
Proof.
  unfold mw.timeout, await, mw.new_AbortController, mw.setTimeout, exec,
    try_finally, try_catch, timeout_entry, reclassify, is_abort.
  cbn. destruct (next _) as [v w2|e w2|]; cbn; try reflexivity.
  destruct (String.eqb _ _); reflexivity.
Qed.

Lemma fire_cleared id w : fire id (mw.clearTimeout id w) = None.
Proof. unfold fire, mw.clearTimeout. cbn. rewrite lookup_delete_eq. reflexivity. Qed.

(** C3, as the code has it.  [timeout] rejects with [TimeoutError] when
    downstream rejects with the transport's abort, and with the very error
    of downstream when that is any other; when downstream resolves,
    [timeout] resolves too, with [undefined]: it does not pass on what
    downstream resolved with, and the context, the response it may hold
    included, is as downstream left it. *)
Theorem timeout_reclassifies (ms : Z) (w : World) :
  exists w1, forall next : OakNext,
    match next w1 with
    | Resolved v w2 =>
        exists w3, mw.timeout ms next w = Resolved None w3 /\ ctx w3 = ctx w2
    | Rejected e w2 =>
        exists w3,
          mw.timeout ms next w =
            Rejected (if is_abort e then TimeoutError else e) w3 /\
          is_abort (if is_abort e then TimeoutError else e) = false
    | Pending => mw.timeout ms next w = Pending
    end.
Proof.
  exists (timeout_entry ms w). intros next. rewrite timeout_run.
  destruct (next _) as [v w2|e w2|]; [| |reflexivity].
  - eexists. split; reflexivity.
  - eexists. split; [reflexivity|].
    destruct (is_abort e) eqn:He; [reflexivity|exact He].
Qed.

(** The claim of C3 that the handler returns the result of downstream
    fails: downstream resolves with a response, the handler with
    [undefined]. *)
Lemma timeout_drops_result :
  (forall w, resolve (Some ok_response) w = Resolved (Some ok_response) w) /\
  (exists w', mw.timeout 50 (resolve (Some ok_response)) idle = Resolved None w') /\
  (forall w', mw.timeout 50 (resolve (Some ok_response)) idle
              <> Resolved (Some ok_response) w').
Proof.
  split; [reflexivity|]. rewrite timeout_run. cbn. split.
  - eexists. reflexivity.
  - intros w' H. discriminate H.
Qed.

(** C7.  [timeout] arms one timer on entry, and on every way out, whether
    [next()] resolved, rejected with the abort or rejected with another
    error, that timer is cleared: it is not armed in the state the handler
    settles in, so it cannot fire there. *)
Theorem timeout_disarms (ms : Z) (w : World) :
  exists id c w1,
    timers w1 !! id = Some {| due := now w + mw.timer_delay ms; aborts := c |} /\
    forall next : OakNext,
      match next w1 with
      | Resolved v w2 =>
          exists w3, mw.timeout ms next w = Resolved None w3 /\
                     timers w3 !! id = None /\ fire id w3 = None
      | Rejected e w2 =>
          exists w3, mw.timeout ms next w = Rejected (reclassify e) w3 /\
                     timers w3 !! id = None /\ fire id w3 = None
      | Pending => mw.timeout ms next w = Pending
      end.
Proof.
  exists (timer_seq w), (fresh (dom (controllers w))), (timeout_entry ms w).
  split.
  - cbn. apply lookup_insert_eq.
  - intros next. rewrite timeout_run.
    destruct (next _) as [v w2|e w2|]; [| |reflexivity];
      (eexists; split; [reflexivity|]; split;
       [cbn; apply lookup_delete_eq|apply fire_cleared]).
Qed.

(** C9.  On entry [timeout] makes a controller of its own, one the
    program did not have, and puts its signal on the request in the place
    of whatever signal the caller had put there, which [next()] therefore
    does not find; the rest of the context reaches [next()] as it came
    in, the other controllers are as they were, and the handler leaves
    the context as [next()] left it. *)
Theorem timeout_frame (ms : Z) (w : World) :
  exists c w1,
    (c ∉ dom (controllers w)) /\
    controllers w1 !! c = Some false /\
    (forall c', c' <> c -> controllers w1 !! c' = controllers w !! c') /\
    ctx w1 = set_init (init_with_signal (Some {| controller := c |})
                         (init (req (ctx w)))) (ctx w) /\
    (forall s,
       signal (init (req (ctx w))) = Some s ->
       controller s ∈ dom (controllers w) ->
       signal (init (req (ctx w1))) <> Some s) /\
    forall next : OakNext,
      match next w1 with
      | Resolved v w2 =>
          exists w3, mw.timeout ms next w = Resolved None w3 /\ ctx w3 = ctx w2
      | Rejected e w2 =>
          exists w3, mw.timeout ms next w = Rejected (reclassify e) w3 /\
                     ctx w3 = ctx w2
      | Pending => mw.timeout ms next w = Pending
      end.
Proof.
  exists (fresh (dom (controllers w))), (timeout_entry ms w).
  split; [apply is_fresh|].
  split; [cbn; apply lookup_insert_eq|].
  split; [intros c' Hc'; cbn; apply lookup_insert_ne; congruence|].
  split; [reflexivity|].
  split.
  - intros s Hs Hin Heq. cbn in Heq. injection Heq as <-.
    exact (is_fresh (dom (controllers w)) Hin).
  - intros next. rewrite timeout_run.
    destruct (next _) as [v w2|e w2|]; [| |reflexivity];
      (eexists; split; reflexivity).
Qed.

(** A caller that put the signal of its controller 0 on the request: the
    handler makes another controller and [next()] finds the signal of
    that. *)
Lemma timeout_frame_witness :
  exists c w1,
    (c ∉ dom (controllers
                (with_controllers {[ 0%nat := false ]}
                   (with_ctx (fresh_context "/resource"
                                (init_with_signal (Some {| controller := 0 |})
                                   empty_init)) idle)))) /\
    controllers w1 !! c = Some false /\
    signal (init (req (ctx w1))) <> Some {| controller := 0 |}.
Proof.
  destruct (timeout_frame 50
              (with_controllers {[ 0%nat := false ]}
                 (with_ctx (fresh_context "/resource"
                              (init_with_signal (Some {| controller := 0 |})
                                 empty_init)) idle)))
    as (c & w1 & Hfresh & Hc & _ & _ & Hs & _).
  exists c, w1. split; [exact Hfresh|]. split; [exact Hc|].
  apply (Hs {| controller := 0 |}); [reflexivity|].
  apply elem_of_dom. exists false. reflexivity.
Defined.

(** ** Error escalation *)

(** [throwErrors] after its [await next()]. *)
Lemma throwErrors_run (next : OakNext) w :
  mw.throwErrors next w =
  match next w with
  | Resolved _ w' =>
      match res (ctx w') with
      | None => Rejected no_response w'
      | Some r =>
          if (400 <=? status r)%Z
          then Rejected (Boom (status r)) w'
          else Resolved None w'
      end
  | Rejected e w' => Rejected e w'
  | Pending => Pending
  end.
Proof.
  unfold mw.throwErrors, await, read.
  destruct (next w) as [v w'|e w'|]; try reflexivity.
  destruct (res (ctx w')) as [r|]; [|reflexivity].
  destruct (400 <=? status r)%Z; reflexivity.
Qed.

(** C4.  When downstream completes and has put a response on the context,
    [throwErrors] returns normally for a status from 200 to 399 and throws
    an error that carries the status for a status of 400 or more. *)
Theorem throwErrors_thresholds (next : OakNext) (w w' : World)
    (v : Result) (r : OakResponse) :
  next w = Resolved v w' ->
  res (ctx w') = Some r ->
  (200 <= status r <= 399 -> mw.throwErrors next w = Resolved None w') /\
  (400 <= status r ->
     exists e, mw.throwErrors next w = Rejected e w' /\
               http_error e = Some (status r)).
Proof.
  intros Hnext Hres. rewrite throwErrors_run, Hnext, Hres. split.
  - intros Hs. destruct (Z.leb_spec 400 (status r)); [lia|reflexivity].
  - intros Hs. destruct (Z.leb_spec 400 (status r)); [|lia].
    exists (Boom (status r)). split; reflexivity.
Qed.

(** A downstream that answers 204, and one that answers 404. *)
Lemma throwErrors_thresholds_witness :
  mw.throwErrors (let* _ := exec (responded (reply 204)) in resolve None) idle
    = Resolved None (responded (reply 204) idle) /\
  exists e,
    mw.throwErrors (let* _ := exec (responded (reply 404)) in resolve None) idle
      = Rejected e (responded (reply 404) idle) /\
    http_error e = Some 404.
Proof.
  split.
  - apply (throwErrors_thresholds
             (let* _ := exec (responded (reply 204)) in resolve None)
             idle (responded (reply 204) idle) None (reply 204));
      [reflexivity|reflexivity|cbn; lia].
  - apply (throwErrors_thresholds
             (let* _ := exec (responded (reply 404)) in resolve None)
             idle (responded (reply 404) idle) None (reply 404));
      [reflexivity|reflexivity|cbn; lia].
Defined.

(** C10.  [throwErrors] needs the response to be there when [next()]
    resolves.  When it is absent the handler fails with a [TypeError]: it
    neither returns normally nor throws a structured HTTP error.  This is
    what happens in a pipeline whose next handler returns without calling
    its own [next]. *)
Theorem throwErrors_needs_response :
  (forall (next : OakNext) w v w',
     next w = Resolved v w' -> res (ctx w') = None ->
     mw.throwErrors next w = Rejected no_response w' /\
     http_error no_response = None) /\
  (forall (short : Promise Result) context next w v w',
     short (with_ctx context w) = Resolved v w' -> res (ctx w') = None ->
     pipeline [mw.throwErrors; fun _ => short] context next w
       = Rejected no_response w').
Proof.
  split.
  - intros next w v w' Hnext Hres.
    rewrite throwErrors_run, Hnext, Hres. split; reflexivity.
  - intros short context next w v w' Hshort Hres.
    rewrite pipeline_nest. cbn. rewrite throwErrors_run, Hshort, Hres.
    reflexivity.
Qed.

(** A handler that returns at once, on a fresh context. *)
Lemma throwErrors_needs_response_witness :
  pipeline [mw.throwErrors; fun _ => resolve None]
    (fresh_context "/resource" empty_init)
    (Some (let* _ := exec (responded (reply 200)) in resolve None)) idle
  = Rejected no_response (with_ctx (fresh_context "/resource" empty_init) idle).
Proof.
  apply (proj2 throwErrors_needs_response (resolve None)
           (fresh_context "/resource" empty_init) _ idle None
           (with_ctx (fresh_context "/resource" empty_init) idle));
    reflexivity.
Defined.

(** ** Handlers whose effects depend on the context alone *)

(** [defaultHeaders] at work: the entries of the defaults, then those of
    the request, then [next()] with the two merged. *)
Lemma defaultHeaders_run Headers_entries defaults (next : OakNext) w :
  mw.defaultHeaders Headers_entries defaults next w =
  match Headers_entries defaults with
  | Throw e => Rejected e w
  | Return d =>
      match Headers_entries (headers (init (req (ctx w)))) with
      | Throw e => Rejected e w
      | Return own =>
          next (with_ctx
                  (set_init (init_with_headers (HeadersRecord (own ∪ d))
                               (init (req (ctx w)))) (ctx w)) w)
      end
  end.
Proof.
  unfold mw.defaultHeaders, await, mw.settle, exec.
  destruct (Headers_entries defaults) as [d|e]; [|reflexivity]. cbn.
  destruct (Headers_entries _) as [own|e]; reflexivity.
Qed.

Lemma stateless_urlPrefix prefix : stateless_handler (mw.urlPrefix prefix).
Proof.
  intros next Hn w1 w2 Hc. unfold mw.urlPrefix, await, exec.
  apply Hn. cbn. rewrite Hc. reflexivity.
Qed.

Lemma stateless_defaultHeaders Headers_entries defaults :
  stateless_handler (mw.defaultHeaders Headers_entries defaults).
Proof.
  intros next Hn w1 w2 Hc. rewrite !defaultHeaders_run, Hc.
  destruct (Headers_entries defaults) as [d|e];
    [|cbn; split; [reflexivity|exact Hc]].
  destruct (Headers_entries _) as [own|e];
    [|cbn; split; [reflexivity|exact Hc]].
  apply Hn. reflexivity.
Qed.

Lemma stateless_throwErrors : stateless_handler mw.throwErrors.
Proof.
  intros next Hn w1 w2 Hc. rewrite !throwErrors_run.
  specialize (Hn w1 w2 Hc).
  destruct (next w1) as [v1 u1|e1 u1|], (next w2) as [v2 u2|e2 u2|];
    cbn in Hn; try contradiction; try exact Hn; try exact I.
  destruct Hn as [_ Hu]. rewrite Hu.
  destruct (res (ctx u2)) as [r|]; [destruct (400 <=? status r)%Z|];
    cbn; (split; [reflexivity|exact Hu]).
Qed.

(** ** Isolation of invocations *)

(** What two states that look alike have in common. *)
Lemma view_eq_inv w1 w2 :
  view w1 = view w2 ->
  input (req (ctx w1)) = input (req (ctx w2)) /\
  method (init (req (ctx w1))) = method (init (req (ctx w2))) /\
  headers (init (req (ctx w1))) = headers (init (req (ctx w2))) /\
  body (init (req (ctx w1))) = body (init (req (ctx w2))) /\
  ((fun s => aborted s w1) <$> signal (init (req (ctx w1)))) =
    ((fun s => aborted s w2) <$> signal (init (req (ctx w2)))) /\
  res (ctx w1) = res (ctx w2) /\
  error (ctx w1) = error (ctx w2).
Proof. unfold view. intros H. injection H. auto 10. Qed.

Lemma isolated_nest (hs : list OakHandler) (k : OakNext) :
  Forall isolated_handler hs -> isolated k -> isolated (nest hs k).
Proof.
  intros Hhs Hk. induction Hhs as [|h hs Hh _ IH].
  - exact Hk.
  - change (nest (h :: hs) k) with (h (nest hs k)). apply Hh. exact IH.
Qed.

Lemma isolated_urlPrefix prefix : isolated_handler (mw.urlPrefix prefix).
Proof.
  intros next Hn w1 w2 Hv. unfold mw.urlPrefix, await, exec. apply Hn.
  destruct (view_eq_inv _ _ Hv) as (Hi & Hm & Hh & Hb & Hs & Hr & He).
  unfold view. cbn. unfold aborted in *. cbn. congruence.
Qed.

Lemma isolated_defaultHeaders Headers_entries defaults :
  isolated_handler (mw.defaultHeaders Headers_entries defaults).
Proof.
  intros next Hn w1 w2 Hv. rewrite !defaultHeaders_run.
  destruct (view_eq_inv _ _ Hv) as (Hi & Hm & Hh & Hb & Hs & Hr & He).
  rewrite Hh.
  destruct (Headers_entries defaults) as [d|e];
    [|cbn; split; [reflexivity|exact Hv]].
  destruct (Headers_entries _) as [own|e];
    [|cbn; split; [reflexivity|exact Hv]].
  apply Hn. unfold view. cbn. unfold aborted in *. cbn. congruence.
Qed.

Lemma isolated_throwErrors : isolated_handler mw.throwErrors.
Proof.
  intros next Hn w1 w2 Hv. rewrite !throwErrors_run.
  specialize (Hn w1 w2 Hv).
  destruct (next w1) as [v1 u1|e1 u1|], (next w2) as [v2 u2|e2 u2|];
    cbn in Hn; try contradiction; try exact Hn; try exact I.
  destruct Hn as [_ Hu].
  destruct (view_eq_inv _ _ Hu) as (_ & _ & _ & _ & _ & Hr & _).
  rewrite Hr.
  destruct (res (ctx u2)) as [r|]; [destruct (400 <=? status r)%Z|];
    cbn; (split; [reflexivity|exact Hu]).
Qed.

Lemma view_clearTimeout id w : view (mw.clearTimeout id w) = view w.
Proof. reflexivity. Qed.

(** The states in which two invocations of [timeout] call [next()] look
    alike when the states they were entered in do: each has the signal of
    a controller of its own on the request, not aborted. *)
Lemma view_timeout_entry ms w1 w2 :
  view w1 = view w2 -> view (timeout_entry ms w1) = view (timeout_entry ms w2).
Proof.
  intros Hv.
  destruct (view_eq_inv _ _ Hv) as (Hi & Hm & Hh & Hb & Hs & Hr & He).
  unfold view. cbn. unfold aborted. cbn. rewrite !lookup_insert_eq. cbn.
  congruence.
Qed.

Lemma isolated_timeout ms : isolated_handler (mw.timeout ms).
Proof.
  intros next Hn w1 w2 Hv. rewrite !timeout_run.
  specialize (Hn _ _ (view_timeout_entry ms w1 w2 Hv)).
  destruct (next (timeout_entry ms w1)) as [v1 u1|e1 u1|],
           (next (timeout_entry ms w2)) as [v2 u2|e2 u2|];
    cbn in Hn; try contradiction; try exact I.
  - destruct Hn as [_ Hu]. cbn. rewrite !view_clearTimeout. auto.
  - destruct Hn as [<- Hu]. cbn. rewrite !view_clearTimeout. auto.
Qed.

Lemma isolated_retry_loop (handler : mw.RetryHandler) (next : OakNext) :
  (forall attempt e, isolated (handler attempt e)) ->
  isolated next ->
  forall fuel attempt, isolated (mw.retry_loop fuel handler next attempt).
Proof.
  intros Hd Hn fuel. induction fuel as [|fuel IH]; intros attempt w1 w2 Hv.
  - exact I.
  - cbn [mw.retry_loop]. unfold try_catch, await.
    specialize (Hn w1 w2 Hv).
    destruct (next w1) as [v1 u1|e1 u1|], (next w2) as [v2 u2|e2 u2|];
      cbn in Hn; try contradiction; try exact Hn; try exact I.
    destruct Hn as [<- Hu].
    specialize (Hd (attempt + 1)%nat e1 u1 u2 Hu).
    destruct (handler _ e1 u1) as [b1 x1|f1 x1|],
             (handler _ e1 u2) as [b2 x2|f2 x2|];
      cbn in Hd; try contradiction; try exact Hd; try exact I.
    destruct Hd as [<- Hx]. destruct b1; cbn.
    + apply IH. exact Hx.
    + split; [reflexivity|exact Hx].
Qed.

Lemma isolated_retry fuel (handler : mw.RetryHandler) :
  (forall attempt e, isolated (handler attempt e)) ->
  isolated_handler (mw.retry fuel handler).
Proof.
  intros Hd next Hn. unfold mw.retry. apply isolated_retry_loop; assumption.
Qed.

Lemma isolated_answer status : isolated (answer status).
Proof.
  intros w1 w2 Hv.
  destruct (view_eq_inv _ _ Hv) as (Hi & Hm & Hh & Hb & Hs & Hr & He).
  cbn. split; [reflexivity|].
  unfold view. cbn. unfold aborted in *. cbn. congruence.
Qed.

(** The transport call of a client holds no state when its transport
    holds none. *)
Lemma isolated_transport_call (JSON_parse : string -> option Json)
    (this : OakClient) :
  (forall w1 w2,
     view w1 = view w2 ->
     same_observation
       (fetchImplementation this (input (req (ctx w1))) (init (req (ctx w1))) w1)
       (fetchImplementation this (input (req (ctx w2))) (init (req (ctx w2))) w2)) ->
  isolated (transport_call JSON_parse this).
Proof.
  intros Hf w1 w2 Hv.
  unfold transport_call, try_catch, await, read. specialize (Hf w1 w2 Hv).
  destruct (fetchImplementation this _ _ w1) as [r1 u1|e1 u1|],
           (fetchImplementation this _ _ w2) as [r2 u2|e2 u2|];
    cbn in Hf; try contradiction; try exact I.
  - destruct Hf as [<- Hu].
    destruct (view_eq_inv _ _ Hu) as (Hi & Hm & Hh & Hb & Hs & Hr & He).
    destruct (0 <=? indexOf _ _)%Z.
    + unfold response_json. destruct (JSON_parse (resp_body r1)); cbn;
        (split; [reflexivity|]);
        unfold view; cbn; unfold aborted in *; cbn; congruence.
    + cbn. split; [reflexivity|].
      unfold view; cbn; unfold aborted in *; cbn; congruence.
  - destruct Hf as [<- Hu].
    destruct (view_eq_inv _ _ Hu) as (Hi & Hm & Hh & Hb & Hs & Hr & He).
    cbn. split; [reflexivity|].
    unfold view; cbn; unfold aborted in *; cbn; congruence.
Qed.

(** C8.  The pipelines of two compositions of the same handlers, none of
    which holds mutable shared state, have identical observable effects on
    identical fresh contexts, in whatever states of the program the two
    invocations start, the state a previous invocation left included:
    they settle alike, with the same value or error, and leave contexts
    that look alike.  The contexts are identical as the caller hands them
    over, a signal it may have put on the request being in the same state
    for both.  Every invocation dispatches from the first handler on, and
    nothing of one reaches the other.  The handlers of the library are
    such handlers, [timeout] with its timer and its controller among
    them. *)
Theorem pipeline_isolation (hs : list OakHandler) (next : OakNext)
    (fn1 fn2 : mw.Pipeline) :
  Forall isolated_handler hs ->
  isolated next ->
  mw.compose (JsArray (JsFunction <$> hs)) = Return fn1 ->
  mw.compose (JsArray (JsFunction <$> hs)) = Return fn2 ->
  forall context w1 w2,
    view (with_ctx context w1) = view (with_ctx context w2) ->
    same_observation (fn1 context (Some next) w1) (fn2 context (Some next) w2).
Proof.
  intros Hhs Hnext H1 H2 context w1 w2 Hv.
  rewrite compose_handlers in H1, H2.
  injection H1 as <-. injection H2 as <-.
  rewrite !pipeline_nest.
  apply (isolated_nest hs (terminal (Some next)) Hhs); [exact Hnext|exact Hv].
Qed.

(** Two invocations of [urlPrefix], [timeout], [retry] and [throwErrors]
    around a transport call that answers 404: one in an idle program and
    one in a program that has run before, which has a controller and a
    timer of an earlier call, a later time and a response on the context
    it last used. *)
Lemma pipeline_isolation_witness :
  same_observation
    (pipeline [mw.urlPrefix "http://host"; mw.timeout 50;
               mw.retry 3 (fun attempt _ => resolve (attempt <? 2)%nat);
               mw.throwErrors]
       (fresh_context "/resource" empty_init) (Some (answer 404)) idle)
    (pipeline [mw.urlPrefix "http://host"; mw.timeout 50;
               mw.retry 3 (fun attempt _ => resolve (attempt <? 2)%nat);
               mw.throwErrors]
       (fresh_context "/resource" empty_init) (Some (answer 404))
       (with_now 1000
          (with_controllers {[ 0%nat := true ]}
             (with_timer_seq 1 (responded (reply 200) idle))))).
Proof.
  apply (pipeline_isolation
           [mw.urlPrefix "http://host"; mw.timeout 50;
            mw.retry 3 (fun attempt _ => resolve (attempt <? 2)%nat);
            mw.throwErrors]
           (answer 404)).
  - repeat constructor.
    + apply isolated_urlPrefix.
    + apply isolated_timeout.
    + apply isolated_retry. intros attempt e w1 w2 Hv. cbn.
      split; [reflexivity|exact Hv].
    + apply isolated_throwErrors.
  - apply isolated_answer.
  - reflexivity.
  - reflexivity.
  - reflexivity.
Defined.

(** The two invocations of the witness do not end in the same context:
    the signals on it are those of two controllers. *)
Lemma isolation_signals_differ :
  exists e1 u1 e2 u2,
    pipeline [mw.timeout 50] (fresh_context "/resource" empty_init)
      (Some (answer 404)) idle = Resolved e1 u1 /\
    pipeline [mw.timeout 50] (fresh_context "/resource" empty_init)
      (Some (answer 404)) (with_controllers {[ 0%nat := true ]} idle)
      = Resolved e2 u2 /\
    ctx u1 <> ctx u2 /\ view u1 = view u2.
Proof.
  do 4 eexists. split; [vm_compute; reflexivity|].
  split; [vm_compute; reflexivity|].
  split; [intros H; vm_compute in H; discriminate H|vm_compute; reflexivity].
Qed.

(** The hypothesis on the handlers is needed: the counter of
    [counting_handler] outlives the call, and the second invocation on an
    identical context ends otherwise than the first. *)
Lemma shared_state_leaks :
  exists w' e w'',
    pipeline [counting_handler 3] (fresh_context "/resource" empty_init)
      None idle = Rejected e w' /\
    pipeline [counting_handler 3] (fresh_context "/resource" empty_init)
      None w' = Resolved None w''.
Proof. do 3 eexists. split; vm_compute; reflexivity. Qed.

(** ** The normalized response *)

Section response_facts.

Variable JSON_parse : string -> option Json.

(** When the transport call resolves, the context holds the normalized
    response of the reply it got. *)
Lemma transport_call_normalized (this : OakClient) w v w' :
  transport_call JSON_parse this w = Resolved v w' ->
  exists r response,
    res (ctx w') = Some r /\ replied this response /\
    normalized JSON_parse response r.
Proof.
  unfold transport_call, try_catch, await, read, exec, throw.
  destruct (fetchImplementation this _ _ w) as [response w1|e w1|] eqn:Hf;
    [|discriminate|discriminate].
  fold (indicates_json response).
  destruct (indicates_json response) eqn:Hj.
  - unfold response_json.
    destruct (JSON_parse (resp_body response)) as [d|] eqn:Hp;
      cbn; [|discriminate].
    intros H. injection H as _ <-.
    eexists _, response. split; [reflexivity|]. split.
    + do 4 eexists. exact Hf.
    + unfold normalized. cbn. rewrite Hj. auto.
  - cbn. intros H. injection H as _ <-.
    eexists _, response. split; [reflexivity|]. split.
    + do 4 eexists. exact Hf.
    + unfold normalized. cbn. rewrite Hj. auto.
Qed.

End response_facts.

Lemma keeps_urlPrefix prefix : keeps_response (mw.urlPrefix prefix).
Proof. intros next Q Hn w v w' H. exact (Hn _ _ _ H). Qed.

Lemma keeps_defaultHeaders Headers_entries defaults :
  keeps_response (mw.defaultHeaders Headers_entries defaults).
Proof.
  intros next Q Hn w v w' H. rewrite defaultHeaders_run in H.
  destruct (Headers_entries defaults) as [d|e]; [|discriminate].
  destruct (Headers_entries _) as [own|e]; [|discriminate].
  exact (Hn _ _ _ H).
Qed.

Lemma keeps_timeout ms : keeps_response (mw.timeout ms).
Proof.
  intros next Q Hn w v w' H. rewrite timeout_run in H.
  destruct (next _) as [v2 w2|e w2|] eqn:Hnext; [|discriminate|discriminate].
  injection H as _ <-. exact (Hn _ _ _ Hnext).
Qed.

Lemma keeps_throwErrors : keeps_response mw.throwErrors.
Proof.
  intros next Q Hn w v w' H. rewrite throwErrors_run in H.
  destruct (next w) as [v2 w2|e w2|] eqn:Hnext; [|discriminate|discriminate].
  destruct (res (ctx w2)) as [r|]; [|discriminate].
  destruct (400 <=? status r)%Z; [discriminate|].
  injection H as _ <-. exact (Hn _ _ _ Hnext).
Qed.

Lemma keeps_retry fuel handler : keeps_response (mw.retry fuel handler).
Proof.
  intros next Q Hn. unfold mw.retry. generalize 0%nat as attempt.
  induction fuel as [|fuel IH]; intros attempt w v w' H; [discriminate|].
  cbn [mw.retry_loop] in H. unfold try_catch, await in H.
  destruct (next w) as [v2 w2|e w2|] eqn:Hnext; [| |discriminate].
  - injection H as _ <-. exact (Hn _ _ _ Hnext).
  - destruct (handler _ e w2) as [b w3|e3 w3|]; [|discriminate|discriminate].
    destruct b; cbn in H; [|discriminate].
    exact (IH _ _ _ _ H).
Qed.

Lemma keeps_layer (l : Layer) :
  (forall w, res (ctx (after l w)) = res (ctx w)) ->
  keeps_response (layer_handler l).
Proof.
  intros Hafter next Q Hn w v w' H.
  unfold layer_handler, await, exec, resolve in H.
  destruct (next _) as [v2 w2|e w2|] eqn:Hnext; [|discriminate|discriminate].
  injection H as _ <-. rewrite Hafter. exact (Hn _ _ _ Hnext).
Qed.

Lemma keeps_nest (hs : list OakHandler) (k : OakNext)
    (Q : option OakResponse -> Prop) :
  Forall keeps_response hs ->
  (forall w v w', k w = Resolved v w' -> Q (res (ctx w'))) ->
  forall w v w', nest hs k w = Resolved v w' -> Q (res (ctx w')).
Proof.
  intros Hhs Hk. induction Hhs as [|h hs Hh _ IH].
  - exact Hk.
  - change (nest (h :: hs) k) with (h (nest hs k)). apply Hh. exact IH.
Qed.

Section fetch_facts.

Variable JSON_parse : string -> option Json.

(** [fetch] resolves with the response the pipeline left on the context. *)
Lemma fetch_run (this : OakClient) input init w :
  fetch JSON_parse this input init w =
  match nest (middleware this) (transport_call JSON_parse this)
          (with_ctx (fresh_context input init) w) with
  | Resolved _ w' => Resolved (res (ctx w')) w'
  | Rejected e w' => Rejected e w'
  | Pending => Pending
  end.
Proof.
  unfold fetch. rewrite compose_handlers.
  unfold await at 1. rewrite pipeline_nest. reflexivity.
Qed.

Lemma fetch_normalized (this : OakClient) input init w v w' :
  Forall keeps_response (middleware this) ->
  fetch JSON_parse this input init w = Resolved v w' ->
  exists r response,
    v = Some r /\ replied this response /\ normalized JSON_parse response r.
Proof.
  intros Hks H. rewrite fetch_run in H.
  destruct (nest _ _ _) as [v2 w2|e w2|] eqn:Hrun; [|discriminate|discriminate].
  injection H as <- <-.
  apply (keeps_nest (middleware this) (transport_call JSON_parse this)
           (fun o => exists r response,
                o = Some r /\ replied this response /\
                normalized JSON_parse response r) Hks)
    with (w := with_ctx (fresh_context input init) w) (v := v2); [|exact Hrun].
  intros u1 v1 u2 Ht.
  destruct (transport_call_normalized JSON_parse this u1 v1 u2 Ht)
    as (r & response & Hr & Hrep & Hnorm).
  exists r, response. rewrite Hr. auto.
Qed.

End fetch_facts.

(** C6, as the code has it.  On a client whose handlers resolve only after
    their [next()] resolved and leave the response that [next()] put on
    the context, every call through [get], [post], [postJson] or [fetch]
    that resolves yields the normalized response of a reply of the
    transport: its status and headers, with the parsed JSON body in [data]
    and no [raw] when the content type of the reply holds
    [application/json], and with an empty object in [data] and the text of
    the body in [raw] otherwise. *)
Theorem api_normalized (JSON_parse : string -> option Json)
    (JSON_stringify : Json -> string) (this : OakClient) (c : ApiCall)
    (w w' : World) (v : option OakResponse) :
  Forall keeps_response (middleware this) ->
  run_call JSON_parse JSON_stringify this c w = Resolved v w' ->
  exists r response,
    v = Some r /\ replied this response /\ normalized JSON_parse response r.
Proof.
  intros Hks H. destruct c; cbn in H;
    eapply fetch_normalized; eauto.
Qed.

(** A client with [urlPrefix], [timeout], [retry] and [throwErrors], on a
    transport that answers with JSON. *)
Lemma api_normalized_witness :
  exists r response,
    Some {| status := 200;
            res_headers := {["content-type" := "application/json"]};
            data := JObject []; raw := None |} = Some r /\
    replied {| fetchImplementation := json_transport;
               middleware := [mw.urlPrefix "http://host"; mw.timeout 50;
                              mw.retry 3 (fun _ _ => resolve false);
                              mw.throwErrors] |} response /\
    normalized parse_empty_object response r.
Proof.
  eapply (api_normalized parse_empty_object print_empty_object
            {| fetchImplementation := json_transport;
               middleware := [mw.urlPrefix "http://host"; mw.timeout 50;
                              mw.retry 3 (fun _ _ => resolve false);
                              mw.throwErrors] |}
            (CallPostJson "/resource" (JObject []) None) idle).
  - repeat constructor.
    + apply keeps_urlPrefix.
    + apply keeps_timeout.
    + apply keeps_retry.
    + apply keeps_throwErrors.
  - vm_compute. reflexivity.
Defined.

(** The claim of C6 for every call that resolves fails: behind a handler
    that returns without calling its [next], [get] resolves with
    [undefined], no response at all. *)
Lemma get_resolves_undefined :
  exists w',
    get parse_empty_object
      {| fetchImplementation := json_transport;
         middleware := [fun _ => resolve None] |}
      "http://www.example.com/resource" None idle
    = Resolved None w'.
Proof. eexists. vm_compute. reflexivity. Qed.

(** ** The deadline, on a transport that takes its time *)

Section deadline_facts.

Variable JSON_parse : string -> option Json.
Variables ms delay : Z.
Variable reply : Response.

(** The body of the reply parses when it is JSON. *)
Hypothesis body_parses :
  indicates_json reply = true -> is_Some (JSON_parse (resp_body reply)).

Lemma timers_entry u :
  timers u = ∅ ->
  timers (timeout_entry ms u) =
  {[ timer_seq u := {| due := now u + mw.timer_delay ms; aborts := fresh (dom (controllers u)) |} ]}.
Proof. intros Hu. cbn. rewrite Hu. apply insert_empty. Qed.

Lemma aborted_entry u :
  aborted {| controller := fresh (dom (controllers u)) |} (timeout_entry ms u) = false.
Proof. unfold aborted. cbn. rewrite lookup_insert_eq. reflexivity. Qed.

Lemma first_abort_entry u :
  timers u = ∅ ->
  first_abort (fresh (dom (controllers u))) (now u + delay) (timeout_entry ms u) =
  if (mw.timer_delay ms <=? delay)%Z then Some (now u + mw.timer_delay ms) else None.
Proof.
  intros Hu. unfold first_abort. rewrite (timers_entry u Hu), map_fold_singleton.
  cbn. rewrite Nat.eqb_refl. cbn.
  destruct (Z.leb_spec (mw.timer_delay ms) delay), (Z.leb_spec (now u + mw.timer_delay ms) (now u + delay));
    try lia; reflexivity.
Qed.

Lemma fire_entry u :
  timers u = ∅ ->
  fire (timer_seq u) (timeout_entry ms u) =
  Some (with_controllers
          (<[fresh (dom (controllers u)) := true]> (controllers (timeout_entry ms u)))
          (with_timers ∅ (timeout_entry ms u))).
Proof.
  intros Hu. unfold fire.
  rewrite (timers_entry u Hu), lookup_singleton_eq, delete_singleton_eq.
  reflexivity.
Qed.

Lemma elapse_entry u t :
  timers u = ∅ ->
  elapse_until t (timeout_entry ms u) =
  with_now t
    (if (now u + mw.timer_delay ms <=? t)%Z
     then with_controllers
            (<[fresh (dom (controllers u)) := true]> (controllers (timeout_entry ms u)))
            (with_timers ∅ (timeout_entry ms u))
     else timeout_entry ms u).
Proof.
  intros Hu. unfold elapse_until.
  rewrite (timers_entry u Hu), map_fold_singleton. cbn [due].
  rewrite (fire_entry u Hu). reflexivity.
Qed.

(** The transport call of the client, made by [timeout]. *)
Lemma delayed_call u :
  timers u = ∅ ->
  delayed_transport delay reply (input (req (ctx (timeout_entry ms u))))
    (init (req (ctx (timeout_entry ms u)))) (timeout_entry ms u) =
  if (mw.timer_delay ms <=? delay)%Z
  then Rejected AbortError (elapse_until (now u + mw.timer_delay ms) (timeout_entry ms u))
  else Resolved reply (elapse_until (now u + delay) (timeout_entry ms u)).
Proof.
  intros Hu. unfold delayed_transport.
  change (signal (init (req (ctx (timeout_entry ms u)))))
    with (Some {| controller := fresh (dom (controllers u)) |}).
  cbv beta iota. rewrite aborted_entry. cbn [controller].
  change (now (timeout_entry ms u)) with (now u).
  rewrite (first_abort_entry u Hu).
  destruct (mw.timer_delay ms <=? delay)%Z; reflexivity.
Qed.

(** The deadline is the delay the runtime gives the timer.  A call that
    takes as long as the deadline or longer fails with
    [TimeoutError], at the deadline; the abort of the transport stays on
    [ctx.error]. *)
Lemma deadline_exceeded url options w :
  timers w = ∅ -> mw.timer_delay ms <= delay ->
  exists w',
    fetch JSON_parse (deadline_client ms delay reply) url options w
      = Rejected TimeoutError w' /\
    now w' = now w + mw.timer_delay ms /\ timers w' = ∅ /\
    error (ctx w') = Some AbortError.
Proof.
  intros Hw Hms. rewrite fetch_run. cbn [middleware deadline_client nest foldr].
  rewrite timeout_run.
  set (u := with_ctx (fresh_context url options) w).
  assert (Hu : timers u = ∅) by exact Hw.
  unfold transport_call, try_catch, await, read.
  cbn [fetchImplementation deadline_client].
  rewrite (delayed_call u Hu).
  destruct (Z.leb_spec (mw.timer_delay ms) delay); [|lia].
  rewrite (elapse_entry u _ Hu), Z.leb_refl.
  eexists. split; [reflexivity|]. cbn. rewrite delete_empty. auto.
Qed.

(** A call that takes less than the deadline resolves with the normalized
    response of the reply; the timer is cleared and its controller was
    never aborted. *)
Lemma deadline_met url options w :
  timers w = ∅ -> delay < mw.timer_delay ms ->
  exists r w',
    fetch JSON_parse (deadline_client ms delay reply) url options w
      = Resolved (Some r) w' /\
    normalized JSON_parse reply r /\
    now w' = now w + delay /\ timers w' = ∅ /\
    controllers w' !! fresh (dom (controllers w)) = Some false.
Proof.
  intros Hw Hms. rewrite fetch_run. cbn [middleware deadline_client nest foldr].
  rewrite timeout_run.
  set (u := with_ctx (fresh_context url options) w).
  assert (Hu : timers u = ∅) by exact Hw.
  unfold transport_call, try_catch, await, read.
  cbn [fetchImplementation deadline_client].
  rewrite (delayed_call u Hu).
  destruct (Z.leb_spec (mw.timer_delay ms) delay); [lia|].
  rewrite (elapse_entry u _ Hu).
  destruct (Z.leb_spec (now u + mw.timer_delay ms) (now u + delay)); [lia|].
  fold (indicates_json reply).
  pose proof body_parses as Hp. unfold normalized.
  destruct (indicates_json reply) eqn:Hj.
  - destruct (Hp eq_refl) as [d Hd]. unfold response_json. rewrite Hd.
    do 2 eexists. split; [reflexivity|]. cbn -[indicates_json].
    rewrite Hw, insert_empty, delete_singleton_eq, lookup_insert_eq. auto 10.
  - do 2 eexists. split; [reflexivity|]. cbn -[indicates_json].
    rewrite Hw, insert_empty, delete_singleton_eq, lookup_insert_eq. auto 10.
Qed.

End deadline_facts.

(** ** The scenarios of the test suite *)

(** "should wait for response to complete": the reply takes 500 ms, the
    deadline is 50 ms; the first handler sees the [TimeoutError] and
    swallows it, and the call resolves at the deadline, with no
    response. *)
Example test_wait_for_response :
  exists w',
    get parse_empty_object
      {| fetchImplementation := delayed_transport 500 json_reply;
         middleware := [expect_timeout; mw.timeout 50] |}
      "http://www.example.com/delay" None idle
    = Resolved None w' /\
    now w' = 50 /\ timers w' = ∅.
Proof. eexists. split; [vm_compute; reflexivity|]. split; reflexivity. Qed.

(** "should allow retries": the handler after [retry] fails until its
    counter reaches 3; it runs twice and the call succeeds. *)
Example test_allow_retries :
  exists r w',
    get parse_empty_object
      {| fetchImplementation := json_transport;
         middleware := [mw.retry 10 (fun attempt _ => resolve (attempt <? 3)%nat);
                        counting_handler 3] |}
      "http://www.example.com/resource" None idle
    = Resolved (Some r) w' /\
    status r = 200 /\ vars w' !! "attempt" = Some 3.
Proof.
  do 2 eexists. split; [vm_compute; reflexivity|]. split; reflexivity.
Qed.

(** "should retry errors": the first reply is a [401], which
    [throwErrors] raises; the decision function adds the token and the
    second attempt succeeds. *)
Example test_retry_errors :
  exists r w',
    get parse_empty_object
      {| fetchImplementation := authenticated_transport;
         middleware := [mw.retry 10 retry_unauthorized; mw.throwErrors] |}
      "http://www.example.com/authenticated" None idle
    = Resolved (Some r) w' /\
    status r = 200.
Proof. do 2 eexists. split; [vm_compute; reflexivity|]. reflexivity. Qed.

(** "should handle errors": the statuses 400, 401, 403 and 500 come back
    as errors that carry them. *)
Example test_handle_errors :
  Forall
    (fun x_status =>
       exists w',
         get parse_empty_object
           {| fetchImplementation := error_transport x_status;
              middleware := [mw.throwErrors] |}
           "http://www.example.com/error" None idle
         = Rejected (Boom (default 500 x_status)) w')
    [Some 400; Some 401; Some 403; None].
Proof. repeat constructor; eexists; vm_compute; reflexivity. Qed.

(** The request target behind [urlPrefix]. *)
Example test_urlPrefix :
  exists r w',
    get parse_empty_object
      {| fetchImplementation := json_transport;
         middleware := [mw.urlPrefix "http://host"] |}
      "/resource" None idle
    = Resolved (Some r) w' /\
    input (req (ctx w')) = "http://host/resource".
Proof. do 2 eexists. split; [vm_compute; reflexivity|]. reflexivity. Qed.

(** The retry scenario of the specification: downstream fails on the
    attempts 1 and 2 and succeeds on the third; it is called three times
    and the call succeeds. *)
Example test_retry_third_attempt :
  exists w',
    mw.retry 10 (spy_decision (fun attempt _ => resolve (attempt <? 3)%nat))
      (spy_next (counting_handler 4 (answer 200))) idle
    = Resolved None w' /\
    calls (trace w') = 3%nat /\
    res (ctx w') = Some (reply 200).
Proof.
  eexists. split; [vm_compute; reflexivity|]. split; reflexivity.
Qed.

(** The marker chain of the specification. *)
Example test_markers :
  exists w',
    pipeline (layer_handler <$> [marker "1"; marker "2"; marker "3"])
      (fresh_context "/resource" empty_init) None idle
    = Resolved None w' /\
    trace w' = [Mark "1pre"; Mark "2pre"; Mark "3pre";
                Mark "3post"; Mark "2post"; Mark "1post"].
Proof. eexists. split; [vm_compute; reflexivity|]. reflexivity. Qed.

(** * The rest of the code *)

(** ** Chains of handlers *)

Lemma nest_app (hs1 hs2 : list OakHandler) (k : OakNext) :
  nest (hs1 ++ hs2) k = nest hs1 (nest hs2 k).
Proof. unfold nest. apply foldr_app. Qed.

Lemma nest_urlPrefix (ps : list string) (k : OakNext) w :
  nest (mw.urlPrefix <$> ps) k w =
  k (with_ctx (set_input (prefixed ps (input (req (ctx w)))) (ctx w)) w).
Proof.
  revert w. induction ps as [|p ps IH]; intros w.
  - destruct w as [[[i ri] r e] t ts n cs vs tr]. reflexivity.
  - change (nest (mw.urlPrefix <$> p :: ps) k w)
      with (mw.urlPrefix p (nest (mw.urlPrefix <$> ps) k) w).
    unfold mw.urlPrefix, await, exec. rewrite IH. reflexivity.
Qed.

(** X1.  Behind the handlers of [urlPrefix] registered for the prefixes
    [p1], ..., [pn] in this order, the rest of the chain finds the target
    [pn ... p1 input]: every handler puts its prefix in front of what the
    handlers before it made, and nothing else of the context changes. *)
Theorem urlPrefix_chain (ps : list string) :
  exists fn,
    mw.compose (JsArray (JsFunction <$> (mw.urlPrefix <$> ps))) = Return fn /\
    forall context (next : OakNext) w,
      fn context (Some next) w =
      next (with_ctx (set_input (prefixed ps (input (req context))) context) w).
Proof.
  exists (pipeline (mw.urlPrefix <$> ps)). split; [apply compose_handlers|].
  intros context next w. rewrite pipeline_nest, nest_urlPrefix. reflexivity.
Qed.

(** X2.  [defaultHeaders] reads the entries of its defaults and then
    those of the headers of the request through the [Headers] of the
    runtime.  When that takes both, the rest of the chain finds on the
    request a plain object in which every header has the value the
    request gave it, if any, and else the value of the defaults: the
    caller wins.  When it refuses the defaults, or else the headers of
    the request, the handler fails with the error of the constructor and
    does not call [next()]; nothing of the context has changed. *)
Theorem defaultHeaders_merge
    (Headers_entries : HeadersInit -> Completion Headers)
    (defaults : HeadersInit) :
  exists fn,
    mw.compose (JsArray [JsFunction (mw.defaultHeaders Headers_entries defaults)])
      = Return fn /\
    forall context (next : OakNext) w,
      match Headers_entries defaults,
            Headers_entries (headers (init (req context))) with
      | Return d, Return own =>
          exists merged : Headers,
            fn context (Some next) w =
              next (with_ctx
                      (set_init (init_with_headers (HeadersRecord merged)
                                   (init (req context))) context) w) /\
            forall name,
              merged !! name =
              match own !! name with
              | Some v => Some v
              | None => d !! name
              end
      | Throw e, _ | Return _, Throw e =>
          fn context (Some next) w = Rejected e (with_ctx context w)
      end.
Proof.
  exists (pipeline [mw.defaultHeaders Headers_entries defaults]).
  split; [apply (compose_handlers [_])|].
  intros context next w. rewrite pipeline_nest.
  change (nest [mw.defaultHeaders Headers_entries defaults] (terminal (Some next)))
    with (mw.defaultHeaders Headers_entries defaults next).
  rewrite defaultHeaders_run.
  change (headers (init (req (ctx (with_ctx context w)))))
    with (headers (init (req context))).
  destruct (Headers_entries defaults) as [d|e]; [|reflexivity].
  destruct (Headers_entries (headers (init (req context)))) as [own|e];
    [|reflexivity].
  exists (own ∪ d). split; [reflexivity|].
  intros name. rewrite lookup_union.
  destruct (own !! name), (d !! name); reflexivity.
Qed.

(** X3.  A handler that settles without calling its [next] ends the
    chain: the handlers registered after it and the terminal continuation
    never run, whatever they are.  Behind handlers that each run their
    pre-logic, await [next()] and run their post-logic, the pre-logics run
    up to it; when it resolves the post-logics run back from it, and when
    it throws they are skipped and its error reaches the caller
    unchanged. *)
Theorem chain_stops (ls : list Layer) (p : Promise Result)
    (rest : list OakHandler) :
  exists fn,
    mw.compose
      (JsArray (JsFunction <$> ((layer_handler <$> ls) ++ (fun _ => p) :: rest)))
      = Return fn /\
    forall context next w,
      fn context next w =
      match p (run_before ls (with_ctx context w)) with
      | Resolved r w' => Resolved r (run_after ls w')
      | Rejected e w' => Rejected e w'
      | Pending => Pending
      end.
Proof.
  eexists. split; [apply compose_handlers|].
  intros context next w. rewrite pipeline_nest, nest_app.
  change (nest ((fun _ => p) :: rest) (terminal next)) with p.
  apply nest_layers.
Qed.

Lemma middleware_use_all (hs : list OakHandler) (this : OakClient) :
  middleware (use_all hs this) = middleware this ++ hs /\
  fetchImplementation (use_all hs this) = fetchImplementation this.
Proof.
  revert this. induction hs as [|h hs IH]; intros this.
  - cbn. rewrite app_nil_r. split; reflexivity.
  - change (use_all (h :: hs) this) with (use_all hs (use h this)).
    destruct (IH (use h this)) as [-> ->]. cbn.
    rewrite <- app_assoc. split; reflexivity.
Qed.

(** X4.  [use] keeps the order of registration and leaves the transport
    alone: a call on a client on which [hs] were registered one after the
    other runs the handlers the client had, around [hs] in their order,
    around the transport call, and resolves with the response that is on
    the context at the end. *)
Theorem use_registers_in_order (JSON_parse : string -> option Json)
    (this : OakClient) (hs : list OakHandler) url options w :
  fetch JSON_parse (use_all hs this) url options w =
  match nest (middleware this) (nest hs (transport_call JSON_parse this))
          (with_ctx (fresh_context url options) w) with
  | Resolved _ w' => Resolved (res (ctx w')) w'
  | Rejected e w' => Rejected e w'
  | Pending => Pending
  end.
Proof.
  rewrite fetch_run. destruct (middleware_use_all hs this) as [Hm Hf].
  rewrite Hm, nest_app.
  replace (transport_call JSON_parse (use_all hs this))
    with (transport_call JSON_parse this); [reflexivity|].
  unfold transport_call. rewrite Hf. reflexivity.
Qed.

(** ** Calls on a client without handlers *)

Section plain_fetch.

Variable JSON_parse : string -> option Json.
Variable this : OakClient.
Variables (url : string) (options : RequestInit) (w : World).

(** No handler is registered. *)
Hypothesis no_handlers : middleware this = [].

Lemma plain_fetch_run :
  fetch JSON_parse this url options w =
  match transport_call JSON_parse this (with_ctx (fresh_context url options) w) with
  | Resolved _ w' => Resolved (res (ctx w')) w'
  | Rejected e w' => Rejected e w'
  | Pending => Pending
  end.
Proof. rewrite fetch_run, no_handlers. reflexivity. Qed.

End plain_fetch.

(** X5.  Without [throwErrors] a reply is a normal response whatever its
    status: on a client without handlers, when the transport resolves and
    the body, if the content type announces JSON, parses, the call
    resolves with the normalized response of the reply, its status
    included, and puts it on the context.  A body of another content type
    is not parsed at all. *)
Theorem fetch_any_status (JSON_parse : string -> option Json)
    (this : OakClient) (url : string) (options : RequestInit)
    (w w1 : World) (response : Response) :
  middleware this = [] ->
  fetchImplementation this url options (with_ctx (fresh_context url options) w)
    = Resolved response w1 ->
  (indicates_json response = true -> is_Some (JSON_parse (resp_body response))) ->
  exists r,
    fetch JSON_parse this url options w = Resolved (Some r) (responded r w1) /\
    status r = resp_status response /\
    normalized JSON_parse response r.
Proof.
  intros Hm Hf Hp. rewrite (plain_fetch_run _ _ _ _ _ Hm).
  unfold transport_call, try_catch, await, read.
  cbn [ctx with_ctx req fresh_context input init]. rewrite Hf.
  fold (indicates_json response). unfold normalized.
  destruct (indicates_json response) eqn:Hj.
  - destruct (Hp eq_refl) as [d Hd]. unfold response_json. rewrite Hd.
    eexists. split; [reflexivity|]. cbn. auto.
  - eexists. split; [reflexivity|]. cbn. auto.
Qed.

(** The test server's [500], on a client without handlers. *)
Lemma fetch_any_status_witness :
  exists r,
    fetch parse_empty_object
      {| fetchImplementation := error_transport None; middleware := [] |}
      "http://www.example.com/error" empty_init idle
    = Resolved (Some r)
        (responded r
           (with_ctx (fresh_context "http://www.example.com/error" empty_init) idle)) /\
    status r = 500 /\
    normalized parse_empty_object
      {| resp_status := 500;
         resp_headers := {["content-type" := "application/json"]};
         resp_body := "{}";
         resp_json_error := invalid_json |} r.
Proof.
  apply (fetch_any_status parse_empty_object
           {| fetchImplementation := error_transport None; middleware := [] |}
           "http://www.example.com/error" empty_init idle
           (with_ctx (fresh_context "http://www.example.com/error" empty_init) idle)
           {| resp_status := 500;
              resp_headers := {["content-type" := "application/json"]};
              resp_body := "{}";
              resp_json_error := invalid_json |}).
  - reflexivity.
  - reflexivity.
  - intros _. vm_compute. eexists. reflexivity.
Defined.

(** X6.  A failure of the transport is the failure of the call: on a
    client without handlers, when the transport rejects with [e] the call
    rejects with [e] itself, with [e] recorded in [ctx.error] and no
    response put on the context. *)
Theorem fetch_transport_failure (JSON_parse : string -> option Json)
    (this : OakClient) (url : string) (options : RequestInit)
    (w w1 : World) (e : Error) :
  middleware this = [] ->
  fetchImplementation this url options (with_ctx (fresh_context url options) w)
    = Rejected e w1 ->
  exists w',
    fetch JSON_parse this url options w = Rejected e w' /\
    error (ctx w') = Some e /\
    res (ctx w') = res (ctx w1).
Proof.
  intros Hm Hf. rewrite (plain_fetch_run _ _ _ _ _ Hm).
  unfold transport_call, try_catch, await, read.
  cbn [ctx with_ctx req fresh_context input init]. rewrite Hf.
  eexists. split; [reflexivity|]. split; reflexivity.
Qed.

(** A transport that cannot connect. *)
Lemma fetch_transport_failure_witness :
  exists w',
    fetch parse_empty_object
      {| fetchImplementation :=
           fun _ _ => throw (ErrorObject "FetchError" "connect ECONNREFUSED");
         middleware := [] |}
      "http://www.example.com/resource" empty_init idle
    = Rejected (ErrorObject "FetchError" "connect ECONNREFUSED") w' /\
    error (ctx w') = Some (ErrorObject "FetchError" "connect ECONNREFUSED") /\
    res (ctx w') =
      res (ctx (with_ctx (fresh_context "http://www.example.com/resource" empty_init)
                  idle)).
Proof.
  apply (fetch_transport_failure parse_empty_object
           {| fetchImplementation :=
                fun _ _ => throw (ErrorObject "FetchError" "connect ECONNREFUSED");
              middleware := [] |}
           "http://www.example.com/resource" empty_init idle
           (with_ctx (fresh_context "http://www.example.com/resource" empty_init) idle)).
  - reflexivity.
  - reflexivity.
Defined.

(** X7.  A reply that announces JSON and whose body does not parse makes
    the call fail, whatever the status of the reply: on a client without
    handlers the call rejects with the very error that [json()] of the
    reply rejects with, the error is recorded in [ctx.error], and no
    response is put on the context. *)
Theorem fetch_unparseable_json (JSON_parse : string -> option Json)
    (this : OakClient) (url : string) (options : RequestInit)
    (w w1 : World) (response : Response) :
  middleware this = [] ->
  fetchImplementation this url options (with_ctx (fresh_context url options) w)
    = Resolved response w1 ->
  indicates_json response = true ->
  JSON_parse (resp_body response) = None ->
  exists w',
    fetch JSON_parse this url options w
      = Rejected (resp_json_error response) w' /\
    error (ctx w') = Some (resp_json_error response) /\
    res (ctx w') = res (ctx w1).
Proof.
  intros Hm Hf Hj Hp. rewrite (plain_fetch_run _ _ _ _ _ Hm).
  unfold transport_call, try_catch, await, read.
  cbn [ctx with_ctx req fresh_context input init]. rewrite Hf.
  fold (indicates_json response). rewrite Hj.
  unfold response_json. rewrite Hp.
  eexists. split; [reflexivity|]. split; reflexivity.
Qed.

(** A page of HTML sent as JSON. *)
Lemma fetch_unparseable_json_witness :
  exists w',
    fetch parse_empty_object
      {| fetchImplementation := fun _ _ =>
           resolve {| resp_status := 200;
                      resp_headers := {["content-type" := "application/json"]};
                      resp_body := "<html>";
                      resp_json_error := invalid_json |};
         middleware := [] |}
      "http://www.example.com/resource" empty_init idle
    = Rejected invalid_json w' /\
    error (ctx w') = Some invalid_json /\
    res (ctx w') =
      res (ctx (with_ctx (fresh_context "http://www.example.com/resource" empty_init)
                  idle)).
Proof.
  apply (fetch_unparseable_json parse_empty_object
           {| fetchImplementation := fun _ _ =>
                resolve {| resp_status := 200;
                           resp_headers := {["content-type" := "application/json"]};
                           resp_body := "<html>";
                           resp_json_error := invalid_json |};
              middleware := [] |}
           "http://www.example.com/resource" empty_init idle
           (with_ctx (fresh_context "http://www.example.com/resource" empty_init) idle)
           {| resp_status := 200;
              resp_headers := {["content-type" := "application/json"]};
              resp_body := "<html>";
              resp_json_error := invalid_json |}).
  - reflexivity.
  - reflexivity.
  - vm_compute. reflexivity.
  - reflexivity.
Defined.

(** ** More on retry *)

(** X8.  A failure of the decision function takes the place of the
    failure it was asked about: when downstream fails and the decision
    function throws in turn, [retry] rejects with the error of the
    decision function, in the state that left, and does not call
    downstream again. *)
Theorem retry_decision_throws (fuel : nat) (handler : mw.RetryHandler)
    (next : OakNext) (w w1 w2 : World) (e e' : Error) :
  next w = Rejected e w1 ->
  handler 1%nat e w1 = Rejected e' w2 ->
  mw.retry (S fuel) handler next w = Rejected e' w2.
Proof.
  intros Hnext Hd. unfold mw.retry. cbn [mw.retry_loop].
  unfold try_catch, await. rewrite Hnext. cbn. rewrite Hd. reflexivity.
Qed.

(** A decision function that fails to refresh a credential. *)
Lemma retry_decision_throws_witness :
  mw.retry 1 (fun _ _ => throw (ErrorObject "Error" "refresh failed"))
    (throw (Boom 401)) idle
  = Rejected (ErrorObject "Error" "refresh failed") idle.
Proof.
  apply (retry_decision_throws 0
           (fun _ _ => throw (ErrorObject "Error" "refresh failed"))
           (throw (Boom 401)) idle idle idle (Boom 401)
           (ErrorObject "Error" "refresh failed"));
    reflexivity.
Defined.

Lemma retry_loop_pending (handler : mw.RetryHandler) (next : OakNext) :
  (forall w, exists e w', next w = Rejected e w') ->
  (forall attempt e w, exists w', handler attempt e w = Resolved true w') ->
  forall fuel attempt w,
    mw.retry_loop fuel handler next attempt w = Pending.
Proof.
  intros Hnext Hd fuel. induction fuel as [|fuel IH]; intros attempt w.
  - reflexivity.
  - cbn [mw.retry_loop]. unfold try_catch, await.
    destruct (Hnext w) as (e & w1 & ->).
    destruct (Hd (attempt + 1)%nat e w1) as (w2 & ->).
    cbn. apply IH.
Qed.

(** X9.  [retry] sets no bound of its own: with a decision function that
    always allows another attempt and a downstream that fails at every
    call, the loop does not end, whatever number of iterations it is
    given. *)
Theorem retry_unbounded (handler : mw.RetryHandler) (next : OakNext) :
  (forall w, exists e w', next w = Rejected e w') ->
  (forall attempt e w, exists w', handler attempt e w = Resolved true w') ->
  forall fuel w, mw.retry fuel handler next w = Pending.
Proof.
  intros Hnext Hd fuel w. apply retry_loop_pending; assumption.
Qed.

(** A thousand iterations of retrying a call that cannot succeed. *)
Lemma retry_unbounded_witness :
  mw.retry 1000 (fun _ _ => resolve true) (throw (Boom 503)) idle = Pending.
Proof.
  apply (retry_unbounded (fun _ _ => resolve true) (throw (Boom 503))).
  - intros w. exists (Boom 503), w. reflexivity.
  - intros attempt e w. exists w. reflexivity.
Defined.

(** X10.  The attempt after a failure starts in the state the decision
    function left, so what the decision function wrote on the context is
    there for the second call of downstream; when that call succeeds
    [retry] resolves with its result and asks no more. *)
Theorem retry_second_attempt (fuel : nat) (handler : mw.RetryHandler)
    (next : OakNext) (w w1 w2 w3 : World) (e : Error) (v : Result) :
  next w = Rejected e w1 ->
  handler 1%nat e w1 = Resolved true w2 ->
  next w2 = Resolved v w3 ->
  mw.retry (S (S fuel)) handler next w = Resolved v w3.
Proof.
  intros H1 Hd H2. unfold mw.retry. cbn [mw.retry_loop].
  unfold try_catch, await. rewrite H1. cbn. rewrite Hd. cbn.
  rewrite H2. reflexivity.
Qed.

(** The test that retries a [401] with a token: behind [throwErrors], on
    the test server. *)
Lemma retry_second_attempt_witness :
  exists w3,
    mw.retry 2 retry_unauthorized
      (mw.throwErrors
         (transport_call parse_empty_object
            {| fetchImplementation := authenticated_transport;
               middleware := [] |})) idle
    = Resolved None w3 /\
    status <$> res (ctx w3) = Some 200.
Proof.
  eexists. split.
  - eapply (retry_second_attempt 0 retry_unauthorized
              (mw.throwErrors
                 (transport_call parse_empty_object
                    {| fetchImplementation := authenticated_transport;
                       middleware := [] |}))
              idle _ _ _ (Boom 401) None);
      vm_compute; reflexivity.
  - reflexivity.
Defined.

(** ** Where [throwErrors] stands *)

(** X11.  [throwErrors] resolves, with [undefined] and in the state
    downstream left, exactly when downstream resolved and left a response
    with a status under 400 on the context, one under 200 included. *)
Theorem throwErrors_resolves_iff (next : OakNext) (w w' : World) (v : Result) :
  mw.throwErrors next w = Resolved v w' <->
  v = None /\
  exists v0 r, next w = Resolved v0 w' /\ res (ctx w') = Some r /\ status r < 400.
Proof.
  rewrite throwErrors_run. split.
  - destruct (next w) as [v0 u|e u|]; [|discriminate|discriminate].
    destruct (res (ctx u)) as [r|] eqn:Hr; [|discriminate].
    destruct (Z.leb_spec 400 (status r)) as [Hge|Hlt]; [discriminate|].
    intros Heq. injection Heq as <- <-. split; [reflexivity|].
    exists v0, r. auto.
  - intros (-> & v0 & r & -> & -> & Hs).
    destruct (Z.leb_spec 400 (status r)); [lia|reflexivity].
Qed.

(** X12.  The place of [throwErrors] decides what [retry] sees.
    Registered before [retry], [throwErrors] raises the status of the
    reply after [retry] has returned, so the decision function is not
    asked and the call fails at once, whatever the decision function is;
    registered after [retry], it raises the status inside the attempt, and
    the decision function is asked about the HTTP error: when it refuses,
    the call fails in the state the decision function left. *)
Theorem throwErrors_placement (fuel : nat) (handler : mw.RetryHandler)
    (k : OakNext) (w w' : World) (v : Result) (r : OakResponse) :
  k w = Resolved v w' ->
  res (ctx w') = Some r ->
  400 <= status r ->
  nest [mw.throwErrors; mw.retry (S fuel) handler] k w
    = Rejected (Boom (status r)) w' /\
  forall w2,
    handler 1%nat (Boom (status r)) w' = Resolved false w2 ->
    nest [mw.retry (S fuel) handler; mw.throwErrors] k w
      = Rejected (Boom (status r)) w2.
Proof.
  intros Hk Hr Hs. split.
  - change (nest [mw.throwErrors; mw.retry (S fuel) handler] k)
      with (mw.throwErrors (mw.retry (S fuel) handler k)).
    rewrite throwErrors_run, (retry_first_success fuel handler k w v w' Hk), Hr.
    destruct (Z.leb_spec 400 (status r)); [reflexivity|lia].
  - intros w2 Hd.
    change (nest [mw.retry (S fuel) handler; mw.throwErrors] k)
      with (mw.retry (S fuel) handler (mw.throwErrors k)).
    unfold mw.retry. cbn [mw.retry_loop]. unfold try_catch at 1.
    rewrite throwErrors_run, Hk, Hr.
    destruct (Z.leb_spec 400 (status r)); [|lia].
    unfold await. cbn. rewrite Hd. reflexivity.
Qed.

(** A reply [503] and a decision function that leaves a mark and
    refuses. *)
Lemma throwErrors_placement_witness :
  nest [mw.throwErrors;
        mw.retry 3 (fun _ _ => let* _ := exec (log (Mark "asked")) in resolve false)]
    (answer 503) idle
    = Rejected (Boom 503) (responded (reply 503) idle) /\
  forall w2,
    (fun (_ : nat) (_ : Error) =>
       let* _ := exec (log (Mark "asked")) in resolve false)
      1%nat (Boom 503) (responded (reply 503) idle) = Resolved false w2 ->
    nest [mw.retry 3 (fun _ _ => let* _ := exec (log (Mark "asked")) in resolve false);
          mw.throwErrors]
      (answer 503) idle
      = Rejected (Boom 503) w2.
Proof.
  apply (throwErrors_placement 2
           (fun _ _ => let* _ := exec (log (Mark "asked")) in resolve false)
           (answer 503) idle (responded (reply 503) idle) None (reply 503)).
  - reflexivity.
  - reflexivity.
  - cbn. lia.
Defined.

(** ** More on the timeout *)

(** X13.  The error [timeout] throws and the error on the context
    differ: on a client whose only handler is [timeout], when the
    transport rejects with an abort, the call rejects with
    [TimeoutError] while [ctx.error], which the transport call wrote,
    still holds the abort; the transport was called with the request of
    the caller but for the signal, which is the handler's own. *)
Theorem timeout_leaves_abort_on_context (JSON_parse : string -> option Json)
    (this : OakClient) (ms : Z) (url : string) (options : RequestInit)
    (w w1 : World) (e : Error) :
  middleware this = [mw.timeout ms] ->
  fetchImplementation this url
    (init_with_signal (Some {| controller := fresh (dom (controllers w)) |}) options)
    (timeout_entry ms (with_ctx (fresh_context url options) w))
    = Rejected e w1 ->
  is_abort e = true ->
  exists w',
    fetch JSON_parse this url options w = Rejected TimeoutError w' /\
    error (ctx w') = Some e /\
    res (ctx w') = res (ctx w1).
Proof.
  intros Hm Hf He. rewrite fetch_run, Hm.
  change (nest [mw.timeout ms] (transport_call JSON_parse this))
    with (mw.timeout ms (transport_call JSON_parse this)).
  rewrite timeout_run.
  unfold transport_call, try_catch, await, read.
  change (req (ctx (timeout_entry ms (with_ctx (fresh_context url options) w))))
    with {| input := url;
            init := init_with_signal
                      (Some {| controller := fresh (dom (controllers w)) |})
                      options |}.
  cbn [input init]. rewrite Hf. cbn. unfold reclassify. rewrite He.
  eexists. split; [reflexivity|]. split; reflexivity.
Qed.

(** A transport that aborts whatever it is asked. *)
Lemma timeout_leaves_abort_on_context_witness :
  exists w',
    fetch parse_empty_object
      {| fetchImplementation := fun _ _ => throw AbortError;
         middleware := [mw.timeout 50] |}
      "http://www.example.com/delay" empty_init idle
    = Rejected TimeoutError w' /\
    error (ctx w') = Some AbortError /\
    res (ctx w') =
      res (ctx (timeout_entry 50
                  (with_ctx (fresh_context "http://www.example.com/delay" empty_init)
                     idle))).
Proof.
  apply (timeout_leaves_abort_on_context parse_empty_object
           {| fetchImplementation := fun _ _ => throw AbortError;
              middleware := [mw.timeout 50] |}
           50 "http://www.example.com/delay" empty_init idle
           (timeout_entry 50
              (with_ctx (fresh_context "http://www.example.com/delay" empty_init)
                 idle))
           AbortError).
  - reflexivity.
  - reflexivity.
  - reflexivity.
Defined.

(** X14.  [timeout] leaks no timer and disturbs none: when the id the
    runtime hands out next is not armed, and downstream leaves the timers
    as it finds them, the timers are the same after the handler has
    settled, either way, as before it was entered. *)
Theorem timeout_restores_timers (ms : Z) (next : OakNext) (w : World) :
  timers w !! timer_seq w = None ->
  (forall u v u', next u = Resolved v u' -> timers u' = timers u) ->
  (forall u e u', next u = Rejected e u' -> timers u' = timers u) ->
  match mw.timeout ms next w with
  | Resolved _ w' | Rejected _ w' => timers w' = timers w
  | Pending => True
  end.
Proof.
  intros Hfresh Hres Hrej.
  assert (Hdel : delete (timer_seq w) (timers (timeout_entry ms w)) = timers w).
  { cbn. rewrite delete_insert_eq. apply delete_id. exact Hfresh. }
  rewrite timeout_run.
  destruct (next _) as [v u'|e u'|] eqn:Hn; [| |exact I]; cbn.
  - rewrite (Hres _ _ _ Hn). exact Hdel.
  - rewrite (Hrej _ _ _ Hn). exact Hdel.
Qed.

(** A program with a timer of its own pending, and a downstream that
    answers at once. *)
Lemma timeout_restores_timers_witness :
  match mw.timeout 50 (answer 200)
          (with_timer_seq 8
             (with_timers {[ 7%nat := {| due := 1000; aborts := 0%nat |} ]} idle)) with
  | Resolved _ w' | Rejected _ w' =>
      timers w' =
      timers (with_timer_seq 8
                (with_timers {[ 7%nat := {| due := 1000; aborts := 0%nat |} ]} idle))
  | Pending => True
  end.
Proof.
  apply (timeout_restores_timers 50 (answer 200)
           (with_timer_seq 8
              (with_timers {[ 7%nat := {| due := 1000; aborts := 0%nat |} ]} idle))).
  - reflexivity.
  - intros u v u' H. injection H as _ <-. reflexivity.
  - intros u e u' H. discriminate H.
Defined.

(** ** The test on the content type *)

Lemma prefix_app (t s : string) :
  String.prefix t s = true <-> exists post, s = t +:+ post.
Proof.
  revert s. induction t as [|a t IH]; intros s.
  - split; [intros _; exists s; reflexivity|].
    intros _. destruct s; reflexivity.
  - destruct s as [|b s]; cbn.
    + split; [discriminate|intros [post H]; discriminate H].
    + destruct (Ascii.ascii_dec a b) as [->|Hne].
      * rewrite IH. split; intros [post H]; exists post.
        -- rewrite H. reflexivity.
        -- injection H as ->. reflexivity.
      * split; [discriminate|].
        intros [post H]. injection H as H _. congruence.
Qed.

Lemma index_app (t s : string) :
  (exists n, String.index 0 t s = Some n) <->
  exists pre post, s = pre +:+ t +:+ post.
Proof.
  induction s as [|b s IH].
  - cbn. destruct t as [|a t].
    + split; [intros _; exists EmptyString, EmptyString; reflexivity|].
      intros _. exists 0%nat. reflexivity.
    + split; [intros [n H]; discriminate H|].
      intros (pre & post & H). destruct pre; discriminate H.
  - cbn [String.index].
    destruct (String.prefix t (String b s)) eqn:Hp.
    + split; [|intros _; exists 0%nat; reflexivity].
      intros _. apply prefix_app in Hp as [post Hp].
      exists EmptyString, post. exact Hp.
    + split.
      * intros [n H]. destruct (String.index 0 t s) as [m|] eqn:Hi; [|discriminate].
        destruct (proj1 IH (ex_intro _ m eq_refl)) as (pre & post & ->).
        exists (String b pre), post. reflexivity.
      * intros (pre & post & H). destruct pre as [|c pre].
        -- cbn in H. assert (String.prefix t (String b s) = true) as Hp'
             by (apply prefix_app; exists post; exact H).
           congruence.
        -- injection H as -> ->.
           destruct (proj2 IH (ex_intro _ pre (ex_intro _ post eq_refl))) as [m ->].
           exists (S m). reflexivity.
Qed.

(** [s.indexOf(t) >= 0] says that [t] occurs in [s]. *)
Lemma indexOf_occurs (s t : string) :
  (0 <=? indexOf s t)%Z = true <-> exists pre post, s = pre +:+ t +:+ post.
Proof.
  rewrite <- index_app. unfold indexOf.
  destruct (String.index 0 t s) as [n|].
  - split; [intros _; exists n; reflexivity|intros _; apply Z.leb_le; lia].
  - split; [discriminate|intros [n H]; discriminate H].
Qed.

(** The test of [fetch] on the reply says that its [content-type]
    mentions JSON. *)
Lemma indicates_json_mentions (response : Response) :
  indicates_json response = true <-> mentions_json response.
Proof.
  unfold indicates_json, mentions_json. rewrite indexOf_occurs.
  destruct (resp_headers response !! "content-type") as [v|]; cbn.
  - split.
    + intros (pre & post & H). exists v, pre, post. auto.
    + intros (v' & pre & post & Hv & H). injection Hv as <-. eauto.
  - split.
    + intros (pre & post & H). destruct pre; discriminate H.
    + intros (v & pre & post & Hv & _). discriminate Hv.
Qed.

(** X15.  [fetch] parses the body of a reply as JSON exactly when the
    value of its [content-type] header holds the text [application/json]
    somewhere, in this case of letters.  On a client without handlers,
    for such a reply the call resolves with the parsed body in [data] and
    no [raw], or rejects with the error of [json()] when the body does
    not parse; for a reply with another content type or without the
    header, the call resolves with an empty object in [data] and the text
    of the body in [raw], whatever the body is. *)
Theorem json_parsed_iff_mentioned (JSON_parse : string -> option Json)
    (this : OakClient) (url : string) (options : RequestInit)
    (w w1 : World) (response : Response) :
  middleware this = [] ->
  fetchImplementation this url options (with_ctx (fresh_context url options) w)
    = Resolved response w1 ->
  (mentions_json response ->
     fetch JSON_parse this url options w =
     match JSON_parse (resp_body response) with
     | Some d =>
         let r := {| status := resp_status response;
                     res_headers := resp_headers response;
                     data := d; raw := None |} in
         Resolved (Some r) (responded r w1)
     | None =>
         Rejected (resp_json_error response)
           (with_ctx (set_error (Some (resp_json_error response)) (ctx w1)) w1)
     end) /\
  (~ mentions_json response ->
     let r := {| status := resp_status response;
                 res_headers := resp_headers response;
                 data := JObject []; raw := Some (resp_body response) |} in
     fetch JSON_parse this url options w = Resolved (Some r) (responded r w1)).
Proof.
  intros Hm Hf. rewrite (plain_fetch_run _ _ _ _ _ Hm).
  unfold transport_call, try_catch, await, read.
  cbn [ctx with_ctx req fresh_context input init]. rewrite Hf.
  fold (indicates_json response).
  pose proof (indicates_json_mentions response) as Hiff.
  destruct (indicates_json response).
  - split; [|intros Hno; exfalso; apply Hno, Hiff; reflexivity].
    intros _. unfold response_json.
    destruct (JSON_parse (resp_body response)); reflexivity.
  - split; [|intros _; reflexivity].
    intros Hyes. apply Hiff in Hyes. discriminate Hyes.
Qed.

(** A reply whose content type has a parameter after the media type, and
    a reply of text. *)
Lemma json_parsed_iff_mentioned_witness :
  fetch parse_empty_object
    {| fetchImplementation := fun _ _ =>
         resolve {| resp_status := 200;
                    resp_headers :=
                      {["content-type" := "application/json; charset=utf-8"]};
                    resp_body := "{}";
                    resp_json_error := invalid_json |};
       middleware := [] |}
    "/resource" empty_init idle
  = Resolved
      (Some {| status := 200;
               res_headers := {["content-type" := "application/json; charset=utf-8"]};
               data := JObject []; raw := None |})
      (responded
         {| status := 200;
            res_headers := {["content-type" := "application/json; charset=utf-8"]};
            data := JObject []; raw := None |}
         (with_ctx (fresh_context "/resource" empty_init) idle)) /\
  fetch parse_empty_object
    {| fetchImplementation := fun _ _ =>
         resolve {| resp_status := 200;
                    resp_headers := {["content-type" := "text/plain"]};
                    resp_body := "{}";
                    resp_json_error := invalid_json |};
       middleware := [] |}
    "/resource" empty_init idle
  = Resolved
      (Some {| status := 200;
               res_headers := {["content-type" := "text/plain"]};
               data := JObject []; raw := Some "{}" |})
      (responded
         {| status := 200;
            res_headers := {["content-type" := "text/plain"]};
            data := JObject []; raw := Some "{}" |}
         (with_ctx (fresh_context "/resource" empty_init) idle)).
Proof.
  split.
  - assert (Hm : mentions_json
                   {| resp_status := 200;
                      resp_headers :=
                        {["content-type" := "application/json; charset=utf-8"]};
                      resp_body := "{}";
                      resp_json_error := invalid_json |}).
    { exists "application/json; charset=utf-8", EmptyString, "; charset=utf-8".
      split; reflexivity. }
    exact (proj1 (json_parsed_iff_mentioned parse_empty_object
             {| fetchImplementation := fun _ _ =>
                  resolve {| resp_status := 200;
                             resp_headers :=
                               {["content-type" := "application/json; charset=utf-8"]};
                             resp_body := "{}";
                             resp_json_error := invalid_json |};
                middleware := [] |}
             "/resource" empty_init idle
             (with_ctx (fresh_context "/resource" empty_init) idle)
             _ eq_refl eq_refl) Hm).
  - assert (Hm : ~ mentions_json
                   {| resp_status := 200;
                      resp_headers := {["content-type" := "text/plain"]};
                      resp_body := "{}";
                      resp_json_error := invalid_json |}).
    { intros Hm. apply indicates_json_mentions in Hm. vm_compute in Hm.
      discriminate Hm. }
    exact (proj2 (json_parsed_iff_mentioned parse_empty_object
             {| fetchImplementation := fun _ _ =>
                  resolve {| resp_status := 200;
                             resp_headers := {["content-type" := "text/plain"]};
                             resp_body := "{}";
                             resp_json_error := invalid_json |};
                middleware := [] |}
             "/resource" empty_init idle
             (with_ctx (fresh_context "/resource" empty_init) idle)
             _ eq_refl eq_refl) Hm).
Defined.

(** ** A handler that calls [next] twice *)

(** X16.  [compose] does not guard against a second call of [next]: a
    handler that awaits its [next] twice runs the rest of the chain, the
    terminal continuation included, twice, the second time in the state
    the first left; the first failure ends it. *)
Theorem next_twice (rest : list OakHandler) :
  exists fn,
    mw.compose
      (JsArray (JsFunction <$> ((fun next => let* _ := next in next) :: rest)))
      = Return fn /\
    forall context (k : OakNext) w,
      fn context (Some k) w =
      match nest rest k (with_ctx context w) with
      | Resolved _ w' => nest rest k w'
      | Rejected e w' => Rejected e w'
      | Pending => Pending
      end.
Proof.
  eexists. split; [apply compose_handlers|].
  intros context k w. rewrite pipeline_nest. reflexivity.
Qed.

(** ** Handlers without state of their own *)

Lemma stateless_retry_loop (handler : mw.RetryHandler) (next : OakNext) :
  (forall attempt e, stateless (handler attempt e)) ->
  stateless next ->
  forall fuel attempt, stateless (mw.retry_loop fuel handler next attempt).
Proof.
  intros Hd Hn fuel. induction fuel as [|fuel IH]; intros attempt w1 w2 Hc.
  - exact I.
  - cbn [mw.retry_loop]. unfold try_catch, await.
    specialize (Hn w1 w2 Hc).
    destruct (next w1) as [v1 u1|e1 u1|], (next w2) as [v2 u2|e2 u2|];
      cbn in Hn; try contradiction; try exact Hn; try exact I.
    destruct Hn as [<- Hu].
    specialize (Hd (attempt + 1)%nat e1 u1 u2 Hu).
    destruct (handler _ e1 u1) as [b1 x1|f1 x1|],
             (handler _ e1 u2) as [b2 x2|f2 x2|];
      cbn in Hd; try contradiction; try exact Hd; try exact I.
    destruct Hd as [<- Hx]. destruct b1; cbn.
    + apply IH. exact Hx.
    + split; [reflexivity|exact Hx].
Qed.

(** X17.  The handlers [urlPrefix], [defaultHeaders], [throwErrors] and
    [retry], the last with a decision function that holds no state, hold
    no state of their own: around a continuation whose effects depend on
    the context alone, theirs do too.  In particular the attempt counter
    of [retry] starts anew in every invocation. *)
Theorem library_handlers_stateless (prefix : string)
    (Headers_entries : HeadersInit -> Completion Headers)
    (defaults : HeadersInit) (fuel : nat) (handler : mw.RetryHandler) :
  (forall attempt e, stateless (handler attempt e)) ->
  stateless_handler (mw.urlPrefix prefix) /\
  stateless_handler (mw.defaultHeaders Headers_entries defaults) /\
  stateless_handler mw.throwErrors /\
  stateless_handler (mw.retry fuel handler).
Proof.
  intros Hd. split; [apply stateless_urlPrefix|].
  split; [apply stateless_defaultHeaders|].
  split; [apply stateless_throwErrors|].
  intros next Hn. unfold mw.retry. apply stateless_retry_loop; assumption.
Qed.

(** The decision function of the retry test, which looks at the attempt
    number alone. *)
Lemma library_handlers_stateless_witness :
  stateless_handler (mw.urlPrefix "http://www.example.com") /\
  stateless_handler
    (mw.defaultHeaders plain_entries (HeadersRecord {["foo" := "bar"]})) /\
  stateless_handler mw.throwErrors /\
  stateless_handler (mw.retry 10 (fun attempt _ => resolve (attempt <? 3)%nat)).
Proof.
  apply (library_handlers_stateless "http://www.example.com" plain_entries
           (HeadersRecord {["foo" := "bar"]})
           10 (fun attempt _ => resolve (attempt <? 3)%nat)).
  intros attempt e w1 w2 Hc. cbn. split; [reflexivity|exact Hc].
Defined.
